(** * Hybrid shotgun batcher: targeter and server set-up

    A shallow embedding of [HybridShotgunBatcher/HsbTargeter.js] and
    [HybridShotgunBatcher/SetupServer.js].

    Conventions of the embedding.
    - A JavaScript number is a rational ([Q]); rounding of IEEE doubles,
      [NaN] and the infinities are not modelled (a division by zero, which
      JavaScript answers with an infinity, is [0] here as in [Qdiv]; a
      theorem about a quotient whose divisor comes with the batch of a
      target or with the settings assumes that the divisor is not [0]).
      Thread counts, which the code always rounds with [Math.ceil] or
      [Math.floor], are integers ([Z]).
    - The Netscript handle [ns] is a record of observations, a snapshot of the
      game.  An effect (starting a batch, sleeping) appends an event to a
      trace and lets the environment answer with a new snapshot.
    - A [while (true)] loop runs on fuel; running out of fuel is a result of
      its own, never confused with a value the code returns. *)

From Stdlib Require Import QArith Qround Qabs ZArith List String Ascii Bool.
From Stdlib Require Import DecimalString.
From Stdlib Require Import Lia Lqa Permutation Sorted.
Import ListNotations.

Open Scope Q_scope.

(** ** JavaScript numbers *)

(** [a < b] and [a > b] on numbers. *)
Definition Qltb (a b : Q) : bool := negb (Qle_bool b a).
Definition Qgtb (a b : Q) : bool := Qltb b a.
(** [a >= b] and [a != b]. *)
Definition Qgeb (a b : Q) : bool := Qle_bool b a.
Definition Qneqb (a b : Q) : bool := negb (Qeq_bool a b).

Definition Math_floor (x : Q) : Z := Qfloor x.
Definition Math_ceil (x : Q) : Z := Qceiling x.
Definition Math_min (a b : Q) : Q := if Qle_bool a b then a else b.
Definition Math_max (a b : Q) : Q := if Qle_bool a b then b else a.

(** The remainder [a % b] of JavaScript: the quotient is truncated toward
    zero, so the result has the sign of [a]. *)
Definition Qtrunc (x : Q) : Z := if Qle_bool 0 x then Qfloor x else Qceiling x.
Definition js_rem (a b : Q) : Q := a - b * inject_Z (Qtrunc (a / b)).

(** ** Operation-count vectors *)

(** Modelled from the spec: the class [Threads] of
    [HybridShotgunBatcher/Helpers], which is not among the sources.  Three
    operation counts, a resource cost that is the weighted sum of the counts
    under a fixed per-operation cost table, and a component-wise equality.
    The constructor takes the counts in the order of [new Threads(0, 0,
    weakenThreads)]. *)
Record Threads : Set := mkThreads { hack : Z; grow : Z; weaken : Z }.

(** The table [RamUsage] of [HybridShotgunBatcher/Helpers]. *)
Record RamUsageTable : Set := mkRamUsage { ram_hack : Q; ram_grow : Q; ram_weaken : Q }.

(** Modelled from the spec: [threads.ramUsage()], the resource cost of the
    vector, the sum of its counts weighted by the cost table. *)
Definition ramUsage (R : RamUsageTable) (t : Threads) : Q :=
  inject_Z (hack t) * ram_hack R
  + inject_Z (grow t) * ram_grow R
  + inject_Z (weaken t) * ram_weaken R.

(** Modelled from the spec: [a.equal(b)], the component-wise equality. *)
Definition equal (a b : Threads) : bool :=
  (hack a =? hack b)%Z && (grow a =? grow b)%Z && (weaken a =? weaken b)%Z.

(** ** The Netscript handle *)

(** One entry of [ns.ps(server)]. *)
Record ProcessInfo : Set := mkProcess { filename : string; threads : Q }.

(** The observations the two files make through [ns] (and [Date.now()]). *)
Record NS : Type := mkNS {
  now : Q;
  getHostname : string;
  hasRootAccess : string -> bool;
  getServerMaxRam : string -> Q;
  getScriptRam : string -> Q;
  ps : string -> list ProcessInfo;
  ls : string -> list string;
  getServerNumPortsRequired : string -> nat;
  getServerMaxMoney : string -> Q;
  getServerMoneyAvailable : string -> Q;
  getServerSecurityLevel : string -> Q;
  getServerMinSecurityLevel : string -> Q;
  getServerBaseDifficulty : string -> Q;
  getServerRequiredHackingLevel : string -> Q;
  getHackingLevel : Q;
  getWeakenTime : string -> Q;
  weakenAnalyze : Z -> Q;
  growthAnalyze : string -> Q -> Q;
  growthAnalyzeSecurity : Z -> Q
}.

(** What a loop on fuel or a function that can throw gives back. *)
Inductive outcome (A : Type) : Type :=
| Done (a : A)
| Throw (msg : string)
| OutOfFuel.
Arguments Done {A} a.
Arguments Throw {A} msg.
Arguments OutOfFuel {A}.

Definition bind {A B : Type} (m : outcome A) (k : A -> outcome B) : outcome B :=
  match m with
  | Done a => k a
  | Throw msg => Throw msg
  | OutOfFuel => OutOfFuel
  end.

Notation "x <- m ;; k" := (bind m (fun x => k))
  (at level 61, m at next level, right associativity).
Notation "' p <- m ;; k" := (bind m (fun p => k))
  (at level 61, p pattern, m at next level, right associativity).

(** * SetupServer.js *)

Module SetupServer.

(** The effects of the file: the port openers and [ns.nuke] of [getRoot],
    [startBatch] of [HybridShotgunBatcher/Helpers] and [ns.sleep].  The
    [ns.print] lines only log and are left out. *)
Inductive Event : Type :=
| EvPortOpener (program target : string)
| EvNuke (target : string)
| EvStartBatch (target : string) (t : Threads) (servers : list string)
| EvSleep (ms : Q).

Record St : Type := mkSt { world : NS; trace : list Event }.

(** The batches a stretch of trace dispatched. *)
Fixpoint dispatched (evs : list Event) : list Threads :=
  match evs with
  | [] => []
  | EvStartBatch _ t _ :: evs' => t :: dispatched evs'
  | _ :: evs' => dispatched evs'
  end.

(** What the file takes from the rest of the repository and from the game. *)
Record Env : Type := mkEnv {
  (** [RamUsage] of Helpers and [WGHMargin] of Settings. *)
  R : RamUsageTable;
  WGHMargin : Q;
  (** How the game answers an effect. *)
  react : Event -> NS -> NS;
  (** [getServers] of [Other/ScanServers] and [getAvailableRam] of Helpers. *)
  getServers : NS -> list string;
  getAvailableRam : NS -> list string -> Q;
  (** [estimateX] of [Helpers/EstimateX], seen through its only effect here:
      the points at which it evaluates the function it is given, in order.
      The arguments are the function, the goal, the two bounds of the search
      and its last two settings. *)
  estimateX : NS -> (Q -> Q) -> Q -> Q -> Q -> Q -> Q -> list Q
}.

Section WithEnvironment.

Variable E : Env.

Definition emit (e : Event) (s : St) : St :=
  mkSt (react E e (world s)) (trace s ++ [e]).

Definition startBatch (target : string) (t : Threads) (servers : list string)
  (s : St) : St := emit (EvStartBatch target t servers) s.

Definition sleep (ms : Q) (s : St) : St := emit (EvSleep ms) s.

Definition portOpenerPrograms : list string :=
  ["BruteSSH.exe"; "FTPCrack.exe"; "relaySMTP.exe"; "HTTPWorm.exe";
   "SQLInject.exe"]%string.

Definition getRoot (target : string) (s : St) : bool * St :=
  if hasRootAccess (world s) target then (true, s)
  else
    let homePrograms := ls (world s) "home" in
    let portOpeners :=
      filter (fun p => existsb (String.eqb p) homePrograms)
        portOpenerPrograms in
    let portsReq := getServerNumPortsRequired (world s) target in
    if (List.length portOpeners <? portsReq)%nat then (false, s)
    else
      let s1 :=
        fold_left (fun s' p => emit (EvPortOpener p target) s')
          (firstn portsReq portOpeners) s in
      (true, emit (EvNuke target) s1).

Definition fixSecurity (target : string) (servers : list string)
  (availableRam : Q) (s : St) : bool * St :=
  if Qeq_bool availableRam 0 then (false, s)
  else
    let fromMin :=
      getServerSecurityLevel (world s) target
      - getServerMinSecurityLevel (world s) target in
    if Qneqb fromMin 0 then
      let optimalWeakenThreads :=
        Math_ceil (fromMin / weakenAnalyze (world s) 1) in
      let maxWeakenThreads := Math_floor (availableRam / ram_weaken (R E)) in
      let weakenThreads := Z.min optimalWeakenThreads maxWeakenThreads in
      let threads := mkThreads 0 0 weakenThreads in
      let s1 := startBatch target threads servers s in
      let optimal := (optimalWeakenThreads <=? maxWeakenThreads)%Z in
      if negb optimal then
        (false, sleep (getWeakenTime (world s1) target) s1)
      else (true, sleep 10 s1)
    else (true, s).

(** The closure [growPToRam] of [fixMoney]: it overwrites the grow and the
    weaken count of the shared [threads] and returns the new cost. *)
Definition growPToRam (ns : NS) (target : string) (x : Q) (threads : Threads)
  : Q * Threads :=
  let g := Math_ceil (growthAnalyze ns target x) in
  let secInc := growthAnalyzeSecurity ns g in
  let w := Math_ceil (secInc / weakenAnalyze ns 1) in
  let threads' := mkThreads (hack threads) g w in
  (ramUsage (R E) threads', threads').

(** The factor by which the money has to grow.  On a server without money
    the code divides by zero and goes on with an infinity, which the
    rationals do not have: the model covers the servers that hold money. *)
Definition maxMul (ns : NS) (target : string) : Q :=
  let moneyLeftP :=
    getServerMoneyAvailable ns target / getServerMaxMoney ns target in
  1 / moneyLeftP.

(** [threads] after [estimateX(ns, growPToRam, availableRam, 1, maxMul, 0,
    0.1)]: [new Threads()] is the zero vector, and every evaluation of the
    search runs [growPToRam] on it. *)
Definition searchedThreads (ns : NS) (target : string) (availableRam : Q)
  : Threads :=
  let start := mkThreads 0 0 0 in
  let trials :=
    estimateX E ns (fun x => fst (growPToRam ns target x start))
      availableRam 1 (maxMul ns target) 0 (1 # 10) in
  fold_left (fun th x => snd (growPToRam ns target x th)) trials start.

Definition growDelta (ns : NS) (target : string) (threads : Threads) : Q :=
  growthAnalyze ns target (maxMul ns target) + 1 - inject_Z (grow threads).

Definition fixMoney (target : string) (servers : list string)
  (availableRam : Q) (s : St) : bool * St :=
  if Qeq_bool availableRam 0 then (false, s)
  else
    let serverMoney := getServerMoneyAvailable (world s) target in
    let maxServerMoney := getServerMaxMoney (world s) target in
    if Qneqb serverMoney maxServerMoney then
      let threads := searchedThreads (world s) target availableRam in
      let delta := growDelta (world s) target threads in
      let s1 := startBatch target threads servers s in
      if Qltb delta (1 # 2) then (true, sleep 10 s1)
      else (false, sleep (getWeakenTime (world s1) target + WGHMargin E + 5) s1)
    else (true, s).

(** One turn of the [while (true)] of [fixServer]: [true] is [break],
    [false] is [continue]. *)
Definition fixServerTurn (target : string) (servers : list string) (s : St)
  : bool * St :=
  let s0 := sleep 100 s in
  let avalibleRam := getAvailableRam E (world s0) servers in
  let '(okSec, s1) := fixSecurity target servers avalibleRam s0 in
  if negb okSec then (false, s1)
  else
    let avalibleRam' := getAvailableRam E (world s1) servers in
    let '(okMoney, s2) := fixMoney target servers avalibleRam' s1 in
    if negb okMoney then (false, s2) else (true, s2).

Fixpoint fixServerLoop (fuel : nat) (target : string) (servers : list string)
  (s : St) : outcome St :=
  match fuel with
  | O => OutOfFuel
  | S fuel' =>
      let '(stop, s') := fixServerTurn target servers s in
      if stop then Done s' else fixServerLoop fuel' target servers s'
  end.

Definition fixServer (fuel : nat) (target : string) (s : St) : outcome St :=
  let '(_, s0) := getRoot target s in
  let servers := getServers E (world s0) in
  fixServerLoop fuel target servers s0.

(** The claim of the specification about [fixMoney], in its words: the count
    the search found is within 0.5 of the theoretical optimum, the grow
    count that the ratio of the current to the maximal money asks for. *)
Definition withinHalfOfOptimum (ns : NS) (target : string)
  (threads : Threads) : Prop :=
  Qabs (inject_Z (grow threads)
        - growthAnalyze ns target (maxMul ns target)) < 1 # 2.

End WithEnvironment.

End SetupServer.

(** * HsbTargeter.js *)

Module HsbTargeter.

(** [targetData.fixedStatus]: a number (the exec time of the fix batch),
    ["fixing"] or ["fixed"]. *)
Inductive FixedStatus : Type :=
| Deadline (t : Q)
| Fixing
| Fixed.

Record TargetData : Type := mkTargetData {
  execTime : Q;
  fixedStatus : FixedStatus;
  batch : Threads;
  baseSecurity : Q;
  baseMoney : Q
}.

Definition withExecTime (t : Q) (td : TargetData) : TargetData :=
  mkTargetData t (fixedStatus td) (batch td) (baseSecurity td) (baseMoney td).

Definition withFixedStatus (f : FixedStatus) (td : TargetData) : TargetData :=
  mkTargetData (execTime td) f (batch td) (baseSecurity td) (baseMoney td).

Definition withBase (sec money : Q) (td : TargetData) : TargetData :=
  mkTargetData (execTime td) (fixedStatus td) (batch td) sec money.

(** The effects of the file: [startBatch] of [HybridShotgunBatcher/Batching]
    and the wait of [goToNextSecHole]. *)
Inductive Event : Type :=
| EvStartBatch (target : string) (t : Threads) (execTime : Q)
| EvGoToNextSecHole.

Record St : Type := mkSt { world : NS; trace : list Event }.

(** What the file takes from the rest of the repository and from the game. *)
Record Env : Type := mkEnv {
  (** [HybridShotgunBatcher/Settings]. *)
  averageBatchASec : Q;
  execMargin : Q;
  maxShotgunShells : Q;
  minDeltaBatchExec : Q;
  (** The cost table behind [batch.ramUsage()]. *)
  R : RamUsageTable;
  (** How the game answers an effect. *)
  react : Event -> NS -> NS;
  (** [Other/ScanServers]. *)
  getServers : NS -> list string;
  (** [HybridShotgunBatcher/Batching]. *)
  getBestFixBatch : NS -> string -> Q -> Threads;
  getBestMoneyBatch : NS -> string -> Q -> Threads;
  getOptimalFixBatch : NS -> string -> Threads;
  getOptimalMoneyBatch : NS -> string -> Threads;
  (** [HybridShotgunBatcher/Other]. *)
  getMoneyPerMs : NS -> string -> Threads -> Q;
  (** [HybridShotgunBatcher/SecHoles]; a call without argument asks about
      [Date.now()]. *)
  inLowSecHole : Q -> bool;
  getNextLowSecEnd : Q -> Q;
  getNextSecHole : Q -> Q;
  (** [Helpers/MyFormulas]. *)
  getMinSecWeakenTime : NS -> string -> Q;
  (** A number inside a template literal. *)
  numberToString : Q -> string
}.

(** ** Objects used as maps, in the order in which their keys are
       enumerated *)

Fixpoint lookup {A : Type} (k : string) (m : list (string * A)) : option A :=
  match m with
  | [] => None
  | (k', v) :: m' => if String.eqb k' k then Some v else lookup k m'
  end.

(** [m[k] = v]: an existing key keeps its place. *)
Fixpoint assign {A : Type} (k : string) (v : A) (m : list (string * A))
  : list (string * A) :=
  match m with
  | [] => [(k, v)]
  | (k', v') :: m' =>
      if String.eqb k' k then (k', v) :: m' else (k', v') :: assign k v m'
  end.

(** The keys of an object are enumerated array indices first, in ascending
    numeric order, then the other strings in the order of their creation.
    An array index is the canonical decimal text of an integer from 0 up to
    2^32 - 2: digits only, no leading zero but in [0] itself. *)
Definition digitOf (c : ascii) : option N :=
  let n := N_of_ascii c in
  if ((48 <=? n) && (n <=? 57))%N then Some (n - 48)%N else None.

Fixpoint digitsValue (k : string) (acc : N) : option N :=
  match k with
  | EmptyString => Some acc
  | String c k' =>
      match digitOf c with
      | Some d => digitsValue k' (10 * acc + d)%N
      | None => None
      end
  end.

Definition arrayIndex (k : string) : option N :=
  match k with
  | EmptyString => None
  | String c rest =>
      if Ascii.eqb c "0"%char && negb (String.eqb rest EmptyString) then None
      else
        match digitsValue k 0 with
        | Some n => if (n <? 4294967295)%N then Some n else None
        | None => None
        end
  end.

(** The place of a new array index [i]: in front of the first key that is
    a larger array index or no array index at all. *)
Fixpoint insertIndexKey {A : Type} (i : N) (k : string) (v : A)
  (m : list (string * A)) : list (string * A) :=
  match m with
  | [] => [(k, v)]
  | (k', v') :: m' =>
      match arrayIndex k' with
      | Some j =>
          if (i <? j)%N then (k, v) :: m
          else (k', v') :: insertIndexKey i k v m'
      | None => (k, v) :: m
      end
  end.

(** [m[k] = v] on an object that may not have the key yet: an existing key
    keeps its place, a new array index goes to its numeric place, any other
    new key goes last. *)
Definition define {A : Type} (k : string) (v : A) (m : list (string * A))
  : list (string * A) :=
  match lookup k m, arrayIndex k with
  | None, Some i => insertIndexKey i k v m
  | _, _ => assign k v m
  end.

Definition optStringEqb (a b : option string) : bool :=
  match a, b with
  | None, None => true
  | Some x, Some y => String.eqb x y
  | _, _ => false
  end.

Definition nl : string := String "010"%char EmptyString.

(** The message of the [TypeError] that reading a property of [undefined]
    throws. *)
Definition typeError : string := "TypeError"%string.

Definition hostRamMargin : Q := 100.

Section WithEnvironment.

Variable E : Env.

Definition emit (e : Event) (s : St) : St :=
  mkSt (react E e (world s)) (trace s ++ [e]).

Definition startBatch (target : string) (t : Threads) (at_ : Q) (s : St)
  : St := emit (EvStartBatch target t at_) s.

Definition goToNextSecHole (s : St) : St := emit EvGoToNextSecHole s.

Definition getAvailableWGHServers (ns : NS) : list string :=
  let hostName := getHostname ns in
  let allServers := getServers E ns in
  let availableServers :=
    filter
      (fun x =>
         if String.eqb x (getHostname ns) then false
         else if negb (hasRootAccess ns x) then false
         else true)
      allServers in
  let serverRam :=
    fold_left
      (fun partialSum serverName =>
         partialSum + Math_max 0 (getServerMaxRam ns serverName - 2))
      availableServers 0 in
  let hostTotalAvailableRam := getServerMaxRam ns hostName in
  if Qltb serverRam hostTotalAvailableRam
  then availableServers ++ [hostName]
  else availableServers.

Definition wghScripts : list string :=
  ["HybridShotgunBatcher/ThreadScripts/Grow.js";
   "HybridShotgunBatcher/ThreadScripts/Weaken.js";
   "HybridShotgunBatcher/ThreadScripts/Hack.js"]%string.

Definition getServerHsbUsedRam (ns : NS) (server : string) : Q :=
  let ramMap :=
    map (fun scriptName => (scriptName, getScriptRam ns scriptName))
      wghScripts in
  fold_left
    (fun usedRam scriptData =>
       let scriptRam :=
         match lookup (filename scriptData) ramMap with
         | Some r => r
         | None => 0
         end in
       usedRam + scriptRam * threads scriptData)
    (ps ns server) 0.

Definition getServerAvailableHsbRam (ns : NS) (server : string) : Q :=
  let hsbUsedRam := getServerHsbUsedRam ns server in
  let totHsbAvailableRam := getServerMaxRam ns server * (95 # 100) in
  let hsbAvailableRam := totHsbAvailableRam - hsbUsedRam in
  let hostName := getHostname ns in
  if String.eqb server hostName then hsbAvailableRam - hostRamMargin
  else hsbAvailableRam - 2.

Definition getAvailableHsbRam (ns : NS) : Q :=
  let servers := getAvailableWGHServers ns in
  fold_left
    (fun totalHsbAvailableRam server =>
       totalHsbAvailableRam + getServerAvailableHsbRam ns server)
    servers 0.

Definition getTargetsData (ns : NS) : list (string * TargetData) :=
  let servers := getServers E ns in
  fold_left
    (fun targetsData target =>
       define target
         (mkTargetData (now ns) (Deadline 0)
            (getOptimalMoneyBatch E ns target)
            (getServerSecurityLevel ns target)
            (getServerMoneyAvailable ns target))
         targetsData)
    servers [].

Definition ensureCanHack (ns : NS) (target : string) : bool :=
  if Qeq_bool (getServerMaxMoney ns target) 0 then false
  else if negb (hasRootAccess ns target) then false
  else if Qltb (getServerRequiredHackingLevel ns target) (getHackingLevel ns)
  then false
  else true.

(** The first loop of [getTargetPriority].  The quotient is a number when
    the batch costs RAM; for a batch without cost the code sorts on an
    infinity or a [NaN], which the model does not cover. *)
Definition targetInfoOf (ns : NS) (targetsData : list (string * TargetData))
  : list (string * Q) :=
  map
    (fun '(target, targetData) =>
       let batch := batch targetData in
       let moneyPerMs := getMoneyPerMs E ns target batch in
       let moneyPerMsPerRam := moneyPerMs / ramUsage (R E) batch in
       (target, moneyPerMsPerRam))
    targetsData.

(** [targetInfo.sort((a, b) => b[1] - a[1])]: the sort of an array is
    stable, so an entry moves in front of the entries after it only when the
    comparison is strictly negative. *)
Fixpoint insertInfo (a : string * Q) (sorted : list (string * Q))
  : list (string * Q) :=
  match sorted with
  | [] => [a]
  | b :: sorted' =>
      if Qle_bool (snd b - snd a) 0 then a :: b :: sorted'
      else b :: insertInfo a sorted'
  end.

Definition sortInfo (targetInfo : list (string * Q)) : list (string * Q) :=
  fold_right insertInfo [] targetInfo.

Definition maxRamOf (ns : NS) (target : string) (targetData : TargetData)
  : Q :=
  let batch := batch targetData in
  let averageBatchTime :=
    getMinSecWeakenTime E ns target + averageBatchASec E in
  let maxConcurrentBatches :=
    (averageBatchTime / execMargin E) * maxShotgunShells E in
  ramUsage (R E) batch * maxConcurrentBatches.

(** The second loop of [getTargetPriority]. *)
Fixpoint walkTargets (ns : NS) (targetsData : list (string * TargetData))
  (targets : list string) (targetPriority : list string) (aRam : Q)
  : outcome (list string * (option string * Q)) :=
  match targets with
  | [] => Done (targetPriority, (None, 0))
  | target :: rest =>
      if ensureCanHack ns target then
        walkTargets ns targetsData rest targetPriority aRam
      else
        match lookup target targetsData with
        | None => Throw typeError
        | Some targetData =>
            let maxRam := maxRamOf ns target targetData in
            let targetPriority' := targetPriority ++ [target] in
            if Qgtb maxRam aRam then
              Done (targetPriority', (Some target, aRam))
            else
              walkTargets ns targetsData rest targetPriority' (aRam - maxRam)
        end
  end.

Definition getTargetPriority (ns : NS)
  (targetsData : list (string * TargetData))
  : outcome (list string * (option string * Q)) :=
  let targetInfo := sortInfo (targetInfoOf ns targetsData) in
  walkTargets ns targetsData (map fst targetInfo) [] (getAvailableHsbRam ns).

Definition securityLines (ns : NS) (target : string) (targetData : TargetData)
  : string :=
  ("    targetData.baseSecurity: "
     ++ numberToString E (baseSecurity targetData) ++ nl
     ++ "    current security: "
     ++ numberToString E (getServerSecurityLevel ns target) ++ nl
     ++ "    min security: "
     ++ numberToString E (getServerSecurityLevel ns target) ++ nl
     ++ "    initial security: "
     ++ numberToString E (getServerBaseDifficulty ns target))%string.

Definition moneyLines (ns : NS) (target : string) (targetData : TargetData)
  : string :=
  ("    targetData.baseMoney: "
     ++ numberToString E (baseMoney targetData) ++ nl
     ++ "    current money: "
     ++ numberToString E (getServerMoneyAvailable ns target) ++ nl
     ++ "    max money: "
     ++ numberToString E (getServerMaxMoney ns target))%string.

Definition targetFixValid (ns : NS) (target : string)
  (targetData : TargetData) : outcome bool :=
  if Qgtb (getServerSecurityLevel ns target) (baseSecurity targetData) then
    Throw ("security larger than the baseSecurity" ++ nl
             ++ securityLines ns target targetData)%string
  else if Qltb (getServerSecurityLevel ns target) (baseSecurity targetData)
  then
    Throw ("targetData.baseSecurity measurement was incorrect" ++ nl
             ++ securityLines ns target targetData)%string
  else if Qgtb (getServerMoneyAvailable ns target) (baseMoney targetData) then
    Throw ("money less than the baseMoney" ++ nl
             ++ moneyLines ns target targetData)%string
  else if Qltb (getServerMoneyAvailable ns target) (baseMoney targetData) then
    Throw ("money less than the baseMoney" ++ nl
             ++ moneyLines ns target targetData)%string
  else Done true.

Definition targetFixed (ns : NS) (target : string) : bool :=
  if Qneqb
       (getServerSecurityLevel ns target - getServerMinSecurityLevel ns target)
       0
  then false
  else if Qneqb
            (getServerMaxMoney ns target - getServerMoneyAvailable ns target)
            0
  then false
  else true.

(** One turn of the [while (true)] of [ensureValidExecTime]: [None] is
    [continue], [Some b] is [return b]. *)
Definition validExecTimeTurn (ns : NS) (target : string)
  (targetData : TargetData) : option bool * TargetData :=
  let firstPossibleExecTime :=
    getNextLowSecEnd E (now ns) + minDeltaBatchExec E
    + getWeakenTime ns target in
  if Qltb (execTime targetData) firstPossibleExecTime then
    (None, withExecTime firstPossibleExecTime targetData)
  else if inLowSecHole E (execTime targetData)
          || inLowSecHole E (execTime targetData - minDeltaBatchExec E)
          || Qltb (getNextSecHole E (execTime targetData - minDeltaBatchExec E))
               (execTime targetData)
  then
    (None,
     withExecTime
       (getNextLowSecEnd E (execTime targetData) + minDeltaBatchExec E)
       targetData)
  else
    let firstStartTime :=
      execTime targetData - getWeakenTime ns target - minDeltaBatchExec E in
    let deltaFirstStartTime := firstStartTime - getNextLowSecEnd E (now ns) in
    if Qgtb deltaFirstStartTime (execMargin E) then (Some false, targetData)
    else (Some true, targetData).

Fixpoint validExecTimeLoop (fuel : nat) (ns : NS) (target : string)
  (targetData : TargetData) : outcome (bool * TargetData) :=
  match fuel with
  | O => OutOfFuel
  | S fuel' =>
      match validExecTimeTurn ns target targetData with
      | (Some b, targetData') => Done (b, targetData')
      | (None, targetData') => validExecTimeLoop fuel' ns target targetData'
      end
  end.

Definition ensureValidExecTime (fuel : nat) (ns : NS) (target : string)
  (targetData : TargetData) : outcome (bool * TargetData) :=
  if negb (inLowSecHole E (now ns)) then Done (false, targetData)
  else validExecTimeLoop fuel ns target targetData.

Definition speedStart : bool := true.

(** [targetData] after [ensureFixed] found the target at its baseline. *)
Definition markFixed (ns : NS) (target : string) (targetData : TargetData)
  : TargetData :=
  withFixedStatus Fixed
    (withBase (getServerSecurityLevel ns target)
       (getServerMoneyAvailable ns target) targetData).

Definition ensureFixed (target : string) (targetData : TargetData) (s : St)
  : bool * TargetData * St :=
  let ns := world s in
  match fixedStatus targetData with
  | Fixed => (true, targetData, s)
  | Fixing =>
      if targetFixed ns target then (true, markFixed ns target targetData, s)
      else if speedStart then (true, targetData, s)
      else (false, targetData, s)
  | Deadline deadline =>
      if targetFixed ns target then (true, markFixed ns target targetData, s)
      else if Qgtb deadline (now ns) then (false, targetData, s)
      else
        let fixBatch := getBestFixBatch E ns target (getAvailableHsbRam ns) in
        let optimalFixBatch := getOptimalFixBatch E ns target in
        let targetData1 :=
          if equal fixBatch optimalFixBatch
          then withFixedStatus Fixing targetData
          else
            (* [targetData.fixedStatus == targetData.execTime] compares and
               drops the answer *)
            targetData in
        let s1 := startBatch target fixBatch (execTime targetData1) s in
        let targetData2 :=
          withExecTime (execTime targetData1 + minDeltaBatchExec E)
            targetData1 in
        let targetData3 :=
          withBase (getServerSecurityLevel (world s1) target)
            (getServerMoneyAvailable (world s1) target) targetData2 in
        (false, targetData3, s1)
  end.

Definition getMaxBatchesForTime (firstBatchExec : Q) : Z :=
  let lastAllowedExecTime := getNextSecHole E firstBatchExec in
  if Qeq_bool firstBatchExec (lastAllowedExecTime - execMargin E) then 1%Z
  else Math_ceil ((lastAllowedExecTime - firstBatchExec) / execMargin E).

(** The [for] loop of [getSubShotgunAvailableRam], from index [i] on. *)
Fixpoint subShotgunUsedRamFrom (ns : NS) (targetData : TargetData)
  (len i : nat) (rest : list Q) (subShotgunUsedRam : Q) : Q :=
  match rest with
  | [] => subShotgunUsedRam
  | batchExecTime :: rest' =>
      let used' :=
        if Qgeb batchExecTime (now ns) then
          let notCompleteBatches := inject_Z (Z.of_nat (len - i)) in
          subShotgunUsedRam
          + ramUsage (R E) (batch targetData) * notCompleteBatches
        else subShotgunUsedRam in
      subShotgunUsedRamFrom ns targetData len (S i) rest' used'
  end.

Definition getSubShotgunAvailableRam (ns : NS) (targetData : TargetData)
  (subShotgunBatchExecTimes : list Q) (subShotgunMaxRam : Q)
  (subBatchData : option Threads * Q) : Q :=
  let used0 :=
    subShotgunUsedRamFrom ns targetData
      (List.length subShotgunBatchExecTimes) 0 subShotgunBatchExecTimes 0 in
  let subShotgunUsedRam :=
    match fst subBatchData with
    | Some subBatch =>
        if Qgeb (snd subBatchData) (now ns)
        then used0 + ramUsage (R E) subBatch
        else used0
    | None => used0
    end in
  let subShotgunAvailableRam := subShotgunMaxRam - subShotgunUsedRam in
  Math_max 0 (Math_min (getAvailableHsbRam ns) subShotgunAvailableRam).

(** [n] turns of the dispatch loop of [scheduleSubShotgun].  The counts of
    [scheduleSubShotgun] and [scheduleFullShotgun] are floors of quotients by
    the RAM of the batch, and the remainder is taken by it: they are numbers
    when the batch costs RAM, which is what the model covers. *)
Fixpoint subShotgunBatches (n : nat) (target : string)
  (targetData : TargetData) (subShotgunBatchExecTimes : list Q) (s : St)
  : TargetData * list Q * St :=
  match n with
  | O => (targetData, subShotgunBatchExecTimes, s)
  | S n' =>
      let times' := subShotgunBatchExecTimes ++ [execTime targetData] in
      let s' := startBatch target (batch targetData) (execTime targetData) s in
      let targetData' :=
        withExecTime (execTime targetData + minDeltaBatchExec E) targetData in
      subShotgunBatches n' target targetData' times' s'
  end.

Definition scheduleSubShotgun (target : string) (targetData : TargetData)
  (subShotgunBatchExecTimes : list Q) (subShotgunMaxRam : Q)
  (subBatchData : option Threads * Q) (s : St)
  : (option Threads * Q) * list Q * TargetData * St :=
  let availableRam :=
    getSubShotgunAvailableRam (world s) targetData subShotgunBatchExecTimes
      subShotgunMaxRam subBatchData in
  let maxBatchesForRam :=
    Math_floor (availableRam / ramUsage (R E) (batch targetData)) in
  let maxBatchesForTime := getMaxBatchesForTime (execTime targetData) in
  let maxBatches := Z.min maxBatchesForRam maxBatchesForTime in
  let '(targetData1, times1, s1) :=
    subShotgunBatches (Z.to_nat maxBatches) target targetData
      subShotgunBatchExecTimes s in
  if (1 <=? getMaxBatchesForTime (execTime targetData1))%Z then
    if Qltb (snd subBatchData) (now (world s1)) then
      let subBatchRam :=
        js_rem availableRam (ramUsage (R E) (batch targetData1)) in
      let subBatch := getBestMoneyBatch E (world s1) target subBatchRam in
      let subBatchData' := (Some subBatch, execTime targetData1) in
      let s2 := startBatch target subBatch (execTime targetData1) s1 in
      let targetData2 :=
        withExecTime (execTime targetData1 + minDeltaBatchExec E)
          targetData1 in
      (subBatchData', times1, targetData2, s2)
    else (subBatchData, times1, targetData1, s1)
  else (subBatchData, times1, targetData1, s1).

(** [n] turns of the dispatch loop of [scheduleFullShotgun]. *)
Fixpoint fullShotgunBatches (n : nat) (target : string)
  (targetData : TargetData) (s : St) : TargetData * St :=
  match n with
  | O => (targetData, s)
  | S n' =>
      let s' := startBatch target (batch targetData) (execTime targetData) s in
      let targetData' :=
        withExecTime (execTime targetData + minDeltaBatchExec E) targetData in
      fullShotgunBatches n' target targetData' s'
  end.

Definition scheduleFullShotgun (target : string) (targetData : TargetData)
  (s : St) : TargetData * St :=
  let maxBatchesForTime := getMaxBatchesForTime (execTime targetData) in
  let maxBatchesForRam :=
    Math_floor
      (getAvailableHsbRam (world s) / ramUsage (R E) (batch targetData)) in
  let maxBatches := Z.min maxBatchesForTime maxBatchesForRam in
  fullShotgunBatches (Z.to_nat maxBatches) target targetData s.

(** The variables of [multiServerHSb]. *)
Record Loop : Type := mkLoop {
  targetsData : list (string * TargetData);
  subShotgunTarget : option string;
  subShotgunBatchExecTimes : list Q;
  subShotgunMaxRam : Q;
  subBatchData : option Threads * Q
}.

Definition withTargetData (target : string) (targetData : TargetData)
  (l : Loop) : Loop :=
  mkLoop (assign target targetData (targetsData l)) (subShotgunTarget l)
    (subShotgunBatchExecTimes l) (subShotgunMaxRam l) (subBatchData l).

(** The body of the [for] over [targetPriority].  [targetData] is the
    object stored in [targetsData], so what a callee writes into it is
    written back under [target]. *)
Definition scheduleTarget (fuel : nat) (target : string) (l : Loop) (s : St)
  : outcome (Loop * St) :=
  match lookup target (targetsData l) with
  | None => Throw typeError
  | Some targetData =>
      '(valid, targetData1) <-
        ensureValidExecTime fuel (world s) target targetData ;;
      if negb valid then Done (withTargetData target targetData1 l, s)
      else
        let '(ready, targetData2, s2) := ensureFixed target targetData1 s in
        if negb ready then Done (withTargetData target targetData2 l, s2)
        else
          _ <- targetFixValid (world s2) target targetData2 ;;
          if optStringEqb (subShotgunTarget l) (Some target) then
            let '(subBatchData', times', targetData3, s3) :=
              scheduleSubShotgun target targetData2
                (subShotgunBatchExecTimes l) (subShotgunMaxRam l)
                (subBatchData l) s2 in
            Done
              (mkLoop (assign target targetData3 (targetsData l))
                 (subShotgunTarget l) times' (subShotgunMaxRam l)
                 subBatchData',
               s3)
          else
            let '(targetData3, s3) :=
              scheduleFullShotgun target targetData2 s2 in
            Done (withTargetData target targetData3 l, s3)
  end.

Fixpoint forTargets (fuel : nat) (targetPriority : list string) (l : Loop)
  (s : St) : outcome (Loop * St) :=
  match targetPriority with
  | [] => Done (l, s)
  | target :: rest =>
      '(l', s') <- scheduleTarget fuel target l s ;;
      forTargets fuel rest l' s'
  end.

(** The head of a turn of the main loop: the priorities, and the reset of
    the sub shotgun when its target changed. *)
Definition newCycle (l : Loop) (s : St) : outcome (list string * Loop) :=
  '(targetPriority, (newSubShotgunTarget, subShotgunMaxRam')) <-
    getTargetPriority (world s) (targetsData l) ;;
  let l1 :=
    mkLoop (targetsData l) (subShotgunTarget l) (subShotgunBatchExecTimes l)
      subShotgunMaxRam' (subBatchData l) in
  if negb (optStringEqb newSubShotgunTarget (subShotgunTarget l1)) then
    Done
      (targetPriority,
       mkLoop (targetsData l1) newSubShotgunTarget [] (subShotgunMaxRam l1)
         (subBatchData l1))
  else Done (targetPriority, l1).

(** One turn of the [while (true)] of [multiServerHSb]. *)
Definition cycle (fuel : nat) (l : Loop) (s : St) : outcome (Loop * St) :=
  '(targetPriority, l1) <- newCycle l s ;;
  let s1 := goToNextSecHole s in
  forTargets fuel targetPriority l1 s1.

Fixpoint cycles (turns fuel : nat) (l : Loop) (s : St)
  : outcome (Loop * St) :=
  match turns with
  | O => OutOfFuel
  | S turns' =>
      '(l', s') <- cycle fuel l s ;;
      cycles turns' fuel l' s'
  end.

Definition multiServerHSb (turns fuel : nat) (s : St) : outcome (Loop * St) :=
  let l := mkLoop (getTargetsData (world s)) None [] 0 (None, 0) in
  cycles turns fuel l s.

(** [ns.disableLog] only silences the log. *)
Definition main (turns fuel : nat) (s : St) : outcome (Loop * St) :=
  multiServerHSb turns fuel s.

(** ** Words of the specification *)

(** A target is eligible when it has root access, its required hacking level
    does not exceed the hacking level of the caller, and its maximal money is
    not zero. *)
Definition eligible (ns : NS) (target : string) : bool :=
  hasRootAccess ns target
  && negb (Qgtb (getServerRequiredHackingLevel ns target) (getHackingLevel ns))
  && negb (Qeq_bool (getServerMaxMoney ns target) 0).

(** The targets the walk of [getTargetPriority] does not skip. *)
Definition retained (ns : NS) (targets : list string) : list string :=
  filter (fun target => negb (ensureCanHack ns target)) targets.

(** The RAM of the most batches a target can have in flight. *)
Definition footprint (ns : NS) (targetsData : list (string * TargetData))
  (target : string) : Q :=
  match lookup target targetsData with
  | Some targetData => maxRamOf ns target targetData
  | None => 0
  end.

(** The budget left after the footprints of [funded] were taken from it. *)
Definition budgetAfter (ns : NS) (targetsData : list (string * TargetData))
  (funded : list string) (budget : Q) : Q :=
  fold_left (fun aRam target => aRam - footprint ns targetsData target)
    funded budget.

(** Each of [funded] fits the budget left when its turn comes. *)
Fixpoint allFit (ns : NS) (targetsData : list (string * TargetData))
  (funded : list string) (budget : Q) : Prop :=
  match funded with
  | [] => True
  | target :: rest =>
      footprint ns targetsData target <= budget
      /\ allFit ns targetsData rest (budget - footprint ns targetsData target)
  end.

(** A message mentions a value when the text of the value is part of it. *)
Definition mentions (msg part : string) : Prop :=
  exists before after : string, msg = (before ++ part ++ after)%string.

(** The state of the main loop after some turns that all ran to their end. *)
Inductive afterCycles (fuel : nat) : Loop * St -> Loop * St -> Prop :=
| afterCycles_none (x : Loop * St) : afterCycles fuel x x
| afterCycles_turn (l l' : Loop) (s s' : St) (y : Loop * St) :
    cycle fuel l s = Done (l', s') ->
    afterCycles fuel (l', s') y ->
    afterCycles fuel (l, s) y.

Definition isStartBatch (e : Event) : bool :=
  match e with
  | EvStartBatch _ _ _ => true
  | EvGoToNextSecHole => false
  end.

(** Between the states [s] and [s'] nothing happened but the dispatch of some
    batches, and the execution time went from [t] to [t'] by one
    [minDeltaBatchExec] for each of them. *)
Definition advancedByDispatches (t t' : Q) (s s' : St) : Prop :=
  exists evs : list Event,
    trace s' = trace s ++ evs
    /\ forallb isStartBatch evs = true
    /\ t' == t + inject_Z (Z.of_nat (List.length evs)) * minDeltaBatchExec E.

(** The earliest execution time [ensureValidExecTime] accepts. *)
Definition firstPossibleExecTime (ns : NS) (target : string) : Q :=
  getNextLowSecEnd E (now ns) + minDeltaBatchExec E + getWeakenTime ns target.

(** Descending order of the yield per RAM. *)
Definition descending (a b : string * Q) : Prop := snd b <= snd a.

End WithEnvironment.

End HsbTargeter.


(** * Concrete games, for the examples *)

Module SetupExample.

(** The script costs of the game: 1.7 GB for a hack thread, 1.75 GB for a
    grow or a weaken thread. *)
Definition ram : RamUsageTable := mkRamUsage (17 # 10) (7 # 4) (7 # 4).

(** Two targets: ["a"] holds 50 of 100 money, ["b"] holds 37 of 64; both are
    5 security points above their minimum. *)
Definition ns0 : NS :=
  mkNS 0 "home" (fun _ => true) (fun _ => 64) (fun _ => 7 # 4) (fun _ => [])
    (fun _ => []) (fun _ => 0%nat)
    (fun t => if String.eqb t "b" then 64 else 100)
    (fun t => if String.eqb t "b" then 37 else 50)
    (fun _ => 10) (fun _ => 5) (fun _ => 15) (fun _ => 1) 10
    (fun _ => 60000)
    (fun n => inject_Z n * (1 # 20))
    (fun _ x => (37 # 20) * x)
    (fun n => inject_Z n * (1 # 250)).

(** A game that does not move, [availableRam] GB free, and a search that
    tries the two bounds of its interval. *)
Definition env (availableRam : Q) : SetupServer.Env :=
  SetupServer.mkEnv ram 200 (fun _ ns => ns) (fun _ => ["home"%string])
    (fun _ _ => availableRam) (fun _ _ _ lo hi _ _ => [lo; hi]).

Definition s0 : SetupServer.St := SetupServer.mkSt ns0 [].

End SetupExample.

Module HsbExample.
Import HsbTargeter.

(** A schedule with a low security hole in the first 100 ms of every
    second. *)
Definition holePeriod : Q := 1000.
Definition holeTime : Q := 100.

Definition exInLowSecHole (t : Q) : bool :=
  Qltb (t - holePeriod * inject_Z (Qfloor (t / holePeriod))) holeTime.

Definition exGetNextLowSecEnd (t : Q) : Q :=
  holePeriod * inject_Z (Qceiling ((t - holeTime) / holePeriod)) + holeTime.

Definition exGetNextSecHole (t : Q) : Q :=
  holePeriod * inject_Z (Qceiling (t / holePeriod)).

(** Numbers print as their integer part here. *)
Definition exNumberToString (q : Q) : string :=
  DecimalString.NilZero.string_of_int (Z.to_int (Qfloor q)).

(** The money per millisecond of a batch is chosen so that the yield per
    RAM is 5 for n00dles, 3 for foodnstuff and 1 for the rest. *)
Definition exYield (target : string) : Q :=
  if String.eqb target "n00dles" then 5
  else if String.eqb target "foodnstuff" then 3
  else 1.

Definition env : Env :=
  mkEnv 0 200 10 20 SetupExample.ram (fun _ ns => ns)
    (fun _ => ["joesguns"; "foodnstuff"; "n00dles"]%string)
    (fun _ _ availableRam =>
       mkThreads 0 0 (Z.min 1000 (Qfloor (availableRam / (7 # 4)))))
    (fun _ _ availableRam => mkThreads (Qfloor (availableRam / 7)) 0 0)
    (fun _ _ => mkThreads 0 0 1000)
    (fun _ _ => mkThreads 1 2 1)
    (fun _ target b => exYield target * ramUsage SetupExample.ram b)
    exInLowSecHole exGetNextLowSecEnd exGetNextSecHole
    (fun _ _ => 2000)
    exNumberToString.

(** A game at time 50, inside a hole: home has 1024 GB and every other
    server 16 GB, nothing runs, the hacking level is 10, a weaken takes
    1950 ms, and every server holds its maximal money, is at security [sec]
    over a minimum of 5. *)
Definition game (root : string -> bool) (maxMoney sec reqLevel : string -> Q)
  : NS :=
  mkNS 50 "home" root
    (fun t => if String.eqb t "home" then 1024 else 16)
    (fun _ => 7 # 4) (fun _ => []) (fun _ => []) (fun _ => 0%nat)
    maxMoney maxMoney sec (fun _ => 5) (fun _ => 15) reqLevel 10
    (fun _ => 1950)
    (fun n => inject_Z n * (1 # 20))
    (fun _ x => (37 # 20) * x)
    (fun n => inject_Z n * (1 # 250)).

(** Every server rooted, rich, below our level and 5 points too secure. *)
Definition ns0 : NS :=
  game (fun _ => true) (fun _ => 1000) (fun _ => 10) (fun _ => 1).

Definition s0 : St := mkSt ns0 [].

(** n00dles asks for exactly our level; darkweb has no money and no root
    access. *)
Definition nsEligibility : NS :=
  game (fun t => negb (String.eqb t "darkweb"))
    (fun t => if String.eqb t "darkweb" then 0 else 1000)
    (fun _ => 10)
    (fun t => if String.eqb t "n00dles" then 10 else 1).

Definition tdAt (t : Q) (f : FixedStatus) (sec : Q) : TargetData :=
  mkTargetData t f (mkThreads 1 2 1) sec 1000.

Definition targetsEligibility : list (string * TargetData) :=
  [("n00dles"%string, tdAt 0 (Deadline 0) 10);
   ("darkweb"%string, tdAt 0 (Deadline 0) 10)].

(** A main loop that believes n00dles is fixed at security 5, while the game
    shows 10. *)
Definition loopDrifted : Loop :=
  mkLoop [("n00dles"%string, tdAt 0 Fixed 5)] None [] 0 (None, 0).

(** The same game with another security level. *)
Definition withSecurity (sec : string -> Q) (ns : NS) : NS :=
  mkNS (now ns) (getHostname ns) (hasRootAccess ns) (getServerMaxRam ns)
    (getScriptRam ns) (ps ns) (ls ns) (getServerNumPortsRequired ns)
    (getServerMaxMoney ns) (getServerMoneyAvailable ns) sec
    (getServerMinSecurityLevel ns) (getServerBaseDifficulty ns)
    (getServerRequiredHackingLevel ns) (getHackingLevel ns) (getWeakenTime ns)
    (weakenAnalyze ns) (growthAnalyze ns) (growthAnalyzeSecurity ns).

(** A game in which the security of every server has dropped by one point
    whenever the scheduler wakes up in the next hole, and in which 100 weaken
    threads are a full fix. *)
Definition driftEnv : Env :=
  mkEnv 0 200 10 20 SetupExample.ram
    (fun e ns =>
       match e with
       | EvGoToNextSecHole =>
           withSecurity (fun t => getServerSecurityLevel ns t - 1) ns
       | EvStartBatch _ _ _ => ns
       end)
    (fun _ => ["n00dles"%string])
    (fun _ _ availableRam =>
       mkThreads 0 0 (Z.min 100 (Qfloor (availableRam / (7 # 4)))))
    (fun _ _ availableRam => mkThreads (Qfloor (availableRam / 7)) 0 0)
    (fun _ _ => mkThreads 0 0 100)
    (fun _ _ => mkThreads 1 2 1)
    (fun _ target b => exYield target * ramUsage SetupExample.ram b)
    exInLowSecHole exGetNextLowSecEnd exGetNextSecHole
    (fun _ _ => 2000)
    exNumberToString.

End HsbExample.

(** * More concrete games and measures, for the further facts *)

Module SetupExample2.

(** A game with one server to set up: whether it is rooted, the programs on
    home, the ports it asks for, its security (over a minimum of 5) and its
    money (of at most 100). *)
Definition gameWith (root : bool) (programs : list string) (ports : nat)
  (sec money : Q) : NS :=
  mkNS 0 "home" (fun _ => root) (fun _ => 64) (fun _ => 7 # 4) (fun _ => [])
    (fun _ => programs) (fun _ => ports)
    (fun _ => 100) (fun _ => money) (fun _ => sec) (fun _ => 5) (fun _ => 15)
    (fun _ => 1) 10 (fun _ => 60000)
    (fun n => inject_Z n * (1 # 20))
    (fun _ x => (37 # 20) * x)
    (fun n => inject_Z n * (1 # 250)).

(** Not rooted, one port to open, two of the openers on home. *)
Definition nsLocked : NS :=
  gameWith false ["NUKE.exe"; "relaySMTP.exe"; "BruteSSH.exe"]%string 1 10 50.

(** Rooted and at its baseline. *)
Definition nsFixed : NS := gameWith true [] 0 5 100.



End SetupExample2.

Module HsbExample2.

(** The game of [HsbExample.ns0] at time 500, after the hole of the first
    100 ms of the second. *)
Definition nsLate : NS :=
  mkNS 500 "home" (fun _ => true)
    (fun t => if String.eqb t "home" then 1024 else 16)
    (fun _ => 7 # 4) (fun _ => []) (fun _ => []) (fun _ => 0%nat)
    (fun _ => 1000) (fun _ => 1000) (fun _ => 10) (fun _ => 5) (fun _ => 15)
    (fun _ => 1) 10 (fun _ => 1950)
    (fun n => inject_Z n * (1 # 20))
    (fun _ x => (37 # 20) * x)
    (fun n => inject_Z n * (1 # 250)).

End HsbExample2.

Module HsbExample3.
Import HsbTargeter.

(** A game at time [t] with two targets at their baseline (security 5,
    maximal money): home has 512 GB until time 10000 and 1024 GB from then
    on, every other server has 16 GB. *)
Definition gameAt (t : Q) : NS :=
  mkNS t "home" (fun _ => true)
    (fun x =>
       if String.eqb x "home" then (if Qltb t 10000 then 512 else 1024)
       else 16)
    (fun _ => 7 # 4) (fun _ => []) (fun _ => []) (fun _ => 0%nat)
    (fun _ => 1000) (fun _ => 1000) (fun _ => 5) (fun _ => 5) (fun _ => 15)
    (fun _ => 1) 10 (fun _ => 1950)
    (fun n => inject_Z n * (1 # 20))
    (fun _ x => (37 # 20) * x)
    (fun n => inject_Z n * (1 # 250)).

(** The environment of [HsbExample.env] with the two targets, a scheduler
    that wakes up in the hole one second after it went to sleep, and a best
    money batch of hack threads only. *)
Definition env : Env :=
  mkEnv 0 200 10 20 SetupExample.ram
    (fun e ns =>
       match e with
       | EvGoToNextSecHole => gameAt (now ns + 1000)
       | EvStartBatch _ _ _ => ns
       end)
    (fun _ => ["foodnstuff"; "n00dles"]%string)
    (fun _ _ availableRam =>
       mkThreads 0 0 (Z.min 1000 (Qfloor (availableRam / (7 # 4)))))
    (fun _ _ availableRam => mkThreads (Qfloor (availableRam / (17 # 10))) 0 0)
    (fun _ _ => mkThreads 0 0 1000)
    (fun _ _ => mkThreads 1 2 1)
    (fun _ target b => HsbExample.exYield target * ramUsage SetupExample.ram b)
    HsbExample.exInLowSecHole HsbExample.exGetNextLowSecEnd
    HsbExample.exGetNextSecHole
    (fun _ _ => 2000)
    HsbExample.exNumberToString.

(** [multiServerHSb] is started at time 9050; [loop0] holds its variables
    when it enters its loop. *)
Definition start : St := mkSt (gameAt 9050) [].

Definition loop0 : Loop :=
  mkLoop (getTargetsData env (world start)) None [] 0 (None, 0).

(** The variables and the state after the first turn of the loop, should
    the turn run to its end. *)
Definition afterFirstTurn : Loop * St :=
  match cycle env 10 loop0 start with
  | Done x => x
  | _ => (loop0, start)
  end.

End HsbExample3.

Module Measures.

(** The execution times of [n] batches dispatched one after the other from
    [t] on, each [delta] after the one before. *)
Fixpoint batchTimes (n : nat) (t delta : Q) : list Q :=
  match n with
  | O => []
  | S n' => t :: batchTimes n' (t + delta) delta
  end.

(** The sum of a list of numbers. *)
Definition total (l : list Q) : Q := fold_right Qplus 0 l.

End Measures.

(** * Facts about numbers *)

Lemma Qltb_lt a b : Qltb a b = true <-> a < b.
Proof.
  unfold Qltb. rewrite negb_true_iff. split; intro H.
  - apply Qnot_le_lt. intro Hle. apply Qle_bool_iff in Hle. congruence.
  - destruct (Qle_bool b a) eqn:E; [|reflexivity].
    apply Qle_bool_iff in E. exfalso. apply (Qlt_not_le _ _ H E).
Qed.

Lemma Qltb_ge a b : Qltb a b = false <-> b <= a.
Proof.
  unfold Qltb. rewrite negb_false_iff. apply Qle_bool_iff.
Qed.

Lemma Qgtb_gt a b : Qgtb a b = true <-> b < a.
Proof. apply Qltb_lt. Qed.

Lemma Qgtb_le a b : Qgtb a b = false <-> a <= b.
Proof. apply Qltb_ge. Qed.

Lemma Qneqb_neq a b : Qneqb a b = true <-> ~ a == b.
Proof.
  unfold Qneqb. rewrite negb_true_iff. split; intro H.
  - apply Qeq_bool_neq. exact H.
  - destruct (Qeq_bool a b) eqn:E; [|reflexivity].
    apply Qeq_bool_iff in E. contradiction.
Qed.

Lemma Qneqb_eq a b : Qneqb a b = false <-> a == b.
Proof.
  unfold Qneqb. rewrite negb_false_iff. apply Qeq_bool_iff.
Qed.

Lemma equal_eq a b : equal a b = true <-> a = b.
Proof.
  unfold equal. rewrite !andb_true_iff, !Z.eqb_eq.
  destruct a, b; simpl. split.
  - intros [[-> ->] ->]. reflexivity.
  - intros H. injection H as -> -> ->. auto.
Qed.

Lemma floor_share_le (a : Z) (c r : Q) :
  0 < r -> inject_Z (Z.min a (Math_floor (c / r))) * r <= c.
Proof.
  intros Hr. unfold Math_floor.
  assert (H1 : inject_Z (Z.min a (Qfloor (c / r))) <= c / r).
  { apply Qle_trans with (inject_Z (Qfloor (c / r))).
    - rewrite <- Zle_Qle. apply Z.le_min_r.
    - apply Qfloor_le. }
  apply Qle_trans with (c / r * r).
  - apply Qmult_le_compat_r; [exact H1 | apply Qlt_le_weak; exact Hr].
  - assert (Hne : ~ r == 0) by (intro H0; rewrite H0 in Hr; discriminate).
    field_simplify; [apply Qle_refl | exact Hne].
Qed.

(** * Facts about SetupServer.js *)

Module SetupServerFacts.
Import SetupServer.

Lemma ramUsage_weaken_only (T : RamUsageTable) (w : Z) :
  ramUsage T (mkThreads 0 0 w) == inject_Z w * ram_weaken T.
Proof. unfold ramUsage; simpl. ring. Qed.

(** C6.  Under a ceiling [C >= 0] of available RAM (and a weaken thread that
    costs RAM), every batch that [fixSecurity] dispatches holds only weaken
    threads, their count is the minimum of the optimal count and
    [floor (C / RamUsage.weaken)], and its cost is at most [C]; when there is
    RAM and the security is above its minimum, exactly that one batch is
    dispatched. *)
Theorem fixSecurity_cost_within_ram (E : Env) (target : string)
  (servers : list string) (C : Q) (s : St) :
  0 <= C -> 0 < ram_weaken (R E) ->
  let ns := world s in
  let fromMin :=
    getServerSecurityLevel ns target - getServerMinSecurityLevel ns target in
  let w :=
    Z.min (Math_ceil (fromMin / weakenAnalyze ns 1))
      (Math_floor (C / ram_weaken (R E))) in
  exists evs,
    trace (snd (fixSecurity E target servers C s)) = trace s ++ evs
    /\ Forall (fun th => th = mkThreads 0 0 w /\ ramUsage (R E) th <= C)
         (dispatched evs)
    /\ (~ C == 0 -> ~ fromMin == 0 -> dispatched evs = [mkThreads 0 0 w]).
Proof.
  intros HC Hr ns fromMin w. unfold fixSecurity.
  destruct (Qeq_bool C 0) eqn:EC.
  - exists []. simpl. rewrite app_nil_r. repeat split; [constructor|].
    intros Hne. apply Qeq_bool_iff in EC. contradiction.
  - fold ns. fold fromMin. destruct (Qneqb fromMin 0) eqn:EF.
    + fold w.
      assert (Hcost : ramUsage (R E) (mkThreads 0 0 w) <= C).
      { rewrite ramUsage_weaken_only. apply floor_share_le. exact Hr. }
      destruct (negb _);
        (eexists; split; [simpl; rewrite <- app_assoc; reflexivity|]);
        simpl; split; auto.
    + exists []. simpl. rewrite app_nil_r. repeat split; [constructor|].
      intros _ Hne. apply Qneqb_eq in EF. contradiction.
Qed.

Lemma fixSecurity_cost_within_ram_witness :
  exists evs,
    trace (snd (fixSecurity (SetupExample.env 8) "a" ["home"%string] 8
                  SetupExample.s0)) = [] ++ evs
    /\ Forall (fun th => th = mkThreads 0 0 4
                         /\ ramUsage SetupExample.ram th <= 8)
         (dispatched evs)
    /\ (~ 8 == 0 -> ~ 10 - 5 == 0 -> dispatched evs = [mkThreads 0 0 4]).
Proof.
  apply (fixSecurity_cost_within_ram (SetupExample.env 8) "a"
           ["home"%string] 8 SetupExample.s0).
  - unfold Qle; simpl; lia.
  - reflexivity.
Defined.

(** C7.  [fixMoney] on target ["a"], which holds 50 of its 100 money, with
    1000 GB at hand.  The money has to double ([maxMul] is 2), for which
    [growthAnalyze] asks 3.7 grow threads; the count the code prints as the
    optimal grow, [Math.ceil] of that, is 4, and 4 grow threads is what the
    search leaves in [threads], 0.3 from the 3.7.  The code tests
    [growthAnalyze(target, maxMul) + 1 - threads.grow < 0.5], here
    [0.7 < 0.5]: it dispatches the batch, waits the weaken time plus
    [WGHMargin + 5] and returns false, although the grow is maximal. *)
Theorem fixMoney_maximal_grow_returns_false :
  maxMul SetupExample.ns0 "a" == 2
  /\ growthAnalyze SetupExample.ns0 "a" (maxMul SetupExample.ns0 "a")
     == 37 # 10
  /\ Math_ceil
       (growthAnalyze SetupExample.ns0 "a" (maxMul SetupExample.ns0 "a"))
     = 4%Z
  /\ searchedThreads (SetupExample.env 1000) SetupExample.ns0 "a" 1000
     = mkThreads 0 4 1
  /\ withinHalfOfOptimum SetupExample.ns0 "a"
       (searchedThreads (SetupExample.env 1000) SetupExample.ns0 "a" 1000)
  /\ growDelta SetupExample.ns0 "a"
       (searchedThreads (SetupExample.env 1000) SetupExample.ns0 "a" 1000)
     == 7 # 10
  /\ fixMoney (SetupExample.env 1000) "a" [] 1000 SetupExample.s0
     = (false,
        mkSt SetupExample.ns0
          [EvStartBatch "a" (mkThreads 0 4 1) [];
           EvSleep (60000 + 200 + 5)]).
Proof. repeat split. Qed.




End SetupServerFacts.

(** * Facts about HsbTargeter.js *)

Module HsbTargeterFacts.
Import HsbTargeter.

Lemma lookup_of_key {A : Type} (k : string) (m : list (string * A)) :
  In k (map fst m) -> exists v, lookup k m = Some v.
Proof.
  induction m as [|[k' v] m IH]; simpl; [contradiction|].
  intros [Hk | Hin].
  - subst k'. rewrite String.eqb_refl. eauto.
  - destruct (String.eqb k' k); eauto.
Qed.

Lemma insertInfo_perm (a : string * Q) (l : list (string * Q)) :
  Permutation (insertInfo a l) (a :: l).
Proof.
  induction l as [|b l IH]; simpl; [reflexivity|].
  destruct (Qle_bool (snd b - snd a) 0); [reflexivity|].
  rewrite IH. apply perm_swap.
Qed.

Lemma sortInfo_perm (l : list (string * Q)) : Permutation (sortInfo l) l.
Proof.
  induction l as [|a l IH]; simpl; [reflexivity|].
  rewrite insertInfo_perm. constructor. exact IH.
Qed.

Lemma insertInfo_sorted (a : string * Q) (l : list (string * Q)) :
  StronglySorted descending l -> StronglySorted descending (insertInfo a l).
Proof.
  induction 1 as [|b l Hs IH Hb]; simpl.
  - constructor; constructor.
  - destruct (Qle_bool (snd b - snd a) 0) eqn:Ecmp.
    + apply Qle_bool_iff in Ecmp.
      assert (Hba : snd b <= snd a) by lra.
      constructor; [constructor; assumption|].
      constructor; [exact Hba|].
      eapply Forall_impl; [|exact Hb].
      intros c Hc. unfold descending in *. lra.
    + assert (Hab : snd a <= snd b).
      { destruct (Qlt_le_dec (snd b) (snd a)) as [Hlt|Hle]; [|exact Hle].
        assert (Hf : Qle_bool (snd b - snd a) 0 = true)
          by (apply Qle_bool_iff; lra).
        congruence. }
      constructor; [exact IH|].
      eapply Permutation_Forall.
      * symmetry. apply insertInfo_perm.
      * constructor; assumption.
Qed.

Lemma sortInfo_sorted (l : list (string * Q)) :
  StronglySorted descending (sortInfo l).
Proof.
  induction l as [|a l IH]; simpl; [constructor|].
  apply insertInfo_sorted. exact IH.
Qed.

Lemma targetInfoOf_keys (E : Env) (ns : NS)
  (tds : list (string * TargetData)) :
  map fst (targetInfoOf E ns tds) = map fst tds.
Proof.
  unfold targetInfoOf. rewrite map_map. apply map_ext.
  intros [target td]. reflexivity.
Qed.

Lemma walkTargets_spec (E : Env) (ns : NS)
  (tds : list (string * TargetData)) (targets : list string) :
  forall (acc : list string) (a : Q),
    (forall t, In t targets -> In t (map fst tds)) ->
    (exists pre t post,
        retained ns targets = pre ++ t :: post
        /\ walkTargets E ns tds targets acc a =
           Done (acc ++ pre ++ [t], (Some t, budgetAfter E ns tds pre a))
        /\ budgetAfter E ns tds pre a < footprint E ns tds t
        /\ allFit E ns tds pre a)
    \/ (walkTargets E ns tds targets acc a =
        Done (acc ++ retained ns targets, (None, 0))
        /\ allFit E ns tds (retained ns targets) a).
Proof.
  induction targets as [|target rest IH]; intros acc a Hkeys.
  - right. simpl. rewrite app_nil_r. split; [reflexivity | exact I].
  - assert (Hrest : forall t, In t rest -> In t (map fst tds))
      by (intros t Ht; apply Hkeys; right; exact Ht).
    simpl. unfold retained in *. simpl.
    destruct (ensureCanHack ns target) eqn:Ecan; simpl.
    + apply IH. exact Hrest.
    + destruct (lookup_of_key target tds) as [td Htd];
        [apply Hkeys; left; reflexivity|].
      rewrite Htd.
      assert (Hfoot : footprint E ns tds target = maxRamOf E ns target td)
        by (unfold footprint; rewrite Htd; reflexivity).
      destruct (Qgtb (maxRamOf E ns target td) a) eqn:Egt.
      * left. exists [], target, (retained ns rest).
        apply Qgtb_gt in Egt. simpl. rewrite Hfoot.
        repeat split; auto.
      * apply Qgtb_le in Egt.
        destruct (IH (acc ++ [target]) (a - maxRamOf E ns target td) Hrest)
          as [(pre & t & post & Hret & Hwalk & Hover & Hfit) | [Hwalk Hfit]].
        -- left. exists (target :: pre), t, post.
           unfold retained in Hret. rewrite Hret. simpl. rewrite Hfoot.
           rewrite Hwalk, <- app_assoc. simpl. repeat split; auto.
        -- right. rewrite Hwalk, <- app_assoc. simpl. rewrite Hfoot.
           repeat split; auto.
Qed.

Lemma allFit_app (E : Env) (ns : NS) (tds : list (string * TargetData))
  (pre rest : list string) :
  forall budget : Q,
    allFit E ns tds (pre ++ rest) budget ->
    allFit E ns tds pre budget
    /\ allFit E ns tds rest (budgetAfter E ns tds pre budget).
Proof.
  induction pre as [|p pre IH]; intros budget; simpl.
  - intros H. split; [exact I | exact H].
  - intros [Hp Hrest]. destruct (IH _ Hrest) as [Hpre Hpost].
    repeat split; assumption.
Qed.

Lemma optStringEqb_eq (a b : option string) :
  optStringEqb a b = true <-> a = b.
Proof.
  destruct a as [x|], b as [y|]; simpl; try (split; congruence).
  rewrite String.eqb_eq. split; congruence.
Qed.

Lemma assign_keys_in {A : Type} (k x : string) (v : A)
  (m : list (string * A)) :
  In x (map fst (assign k v m)) -> x = k \/ In x (map fst m).
Proof.
  induction m as [|[k' v'] m IH]; simpl.
  - intros [<- | []]. left. reflexivity.
  - destruct (String.eqb k' k); simpl; intros [<- | Hin]; auto.
    destruct (IH Hin); auto.
Qed.

Lemma assign_keys_NoDup {A : Type} (k : string) (v : A)
  (m : list (string * A)) :
  NoDup (map fst m) -> NoDup (map fst (assign k v m)).
Proof.
  induction m as [|[k' v'] m IH]; simpl; intros Hnd.
  - constructor; [intros [] | constructor].
  - inversion Hnd as [|? ? Hnotin Hnd']; subst.
    destruct (String.eqb_spec k' k) as [->|Hne]; simpl.
    + constructor; assumption.
    + constructor; [|apply IH; exact Hnd'].
      intros Hin. apply assign_keys_in in Hin. destruct Hin; auto.
Qed.

Lemma lookup_assign_same {A : Type} (k : string) (v : A)
  (m : list (string * A)) : lookup k (assign k v m) = Some v.
Proof.
  induction m as [|[k' v'] m IH]; simpl.
  - rewrite String.eqb_refl. reflexivity.
  - destruct (String.eqb k' k) eqn:Ek; simpl; rewrite Ek; auto.
Qed.

Lemma lookup_assign_other {A : Type} (k k0 : string) (v : A)
  (m : list (string * A)) :
  k0 <> k -> lookup k0 (assign k v m) = lookup k0 m.
Proof.
  intros Hne. induction m as [|[k' v'] m IH]; simpl.
  - destruct (String.eqb_spec k k0); [congruence | reflexivity].
  - destruct (String.eqb_spec k' k) as [->|Hk]; simpl.
    + destruct (String.eqb_spec k k0); [congruence | reflexivity].
    + rewrite IH. reflexivity.
Qed.

Lemma lookup_none_not_key {A : Type} (k : string) (m : list (string * A)) :
  lookup k m = None -> ~ In k (map fst m).
Proof.
  induction m as [|[k' v'] m IH]; simpl; [tauto|].
  destruct (String.eqb_spec k' k) as [->|Hne]; [discriminate|].
  intros Hnone [Heq | Hin]; [congruence | exact (IH Hnone Hin)].
Qed.

Lemma insertIndexKey_perm {A : Type} (i : N) (k : string) (v : A)
  (m : list (string * A)) :
  Permutation (insertIndexKey i k v m) ((k, v) :: m).
Proof.
  induction m as [|[k' v'] m IH]; simpl; [reflexivity|].
  destruct (arrayIndex k') as [j|]; [|reflexivity].
  destruct (i <? j)%N; [reflexivity|].
  rewrite IH. apply perm_swap.
Qed.

Lemma lookup_insertIndexKey_same {A : Type} (i : N) (k : string) (v : A)
  (m : list (string * A)) :
  lookup k m = None -> lookup k (insertIndexKey i k v m) = Some v.
Proof.
  induction m as [|[k' v'] m IH]; simpl.
  - rewrite String.eqb_refl. reflexivity.
  - destruct (String.eqb_spec k' k) as [->|Hne]; [discriminate|].
    intros Hnone.
    destruct (arrayIndex k') as [j|]; [destruct (i <? j)%N|]; simpl;
      rewrite ?String.eqb_refl; try reflexivity.
    destruct (String.eqb_spec k' k) as [Heq|_]; [congruence|].
    apply IH. exact Hnone.
Qed.

Lemma lookup_insertIndexKey_other {A : Type} (i : N) (k k0 : string) (v : A)
  (m : list (string * A)) :
  k <> k0 -> lookup k0 (insertIndexKey i k v m) = lookup k0 m.
Proof.
  intros Hne.
  assert (Hhead : forall m', lookup k0 ((k, v) :: m') = lookup k0 m').
  { intros m'. simpl. destruct (String.eqb_spec k k0); [contradiction|].
    reflexivity. }
  induction m as [|[k' v'] m IH]; [apply Hhead|].
  simpl insertIndexKey.
  destruct (arrayIndex k') as [j|]; [destruct (i <? j)%N|];
    try apply Hhead.
  simpl. rewrite IH. reflexivity.
Qed.

Lemma lookup_define_same {A : Type} (k : string) (v : A)
  (m : list (string * A)) :
  lookup k (define k v m) = Some v.
Proof.
  unfold define. destruct (lookup k m) as [v0|] eqn:Hk;
    [apply lookup_assign_same|].
  destruct (arrayIndex k) as [i|]; [|apply lookup_assign_same].
  apply lookup_insertIndexKey_same. exact Hk.
Qed.

Lemma lookup_define_other {A : Type} (k k0 : string) (v : A)
  (m : list (string * A)) :
  k0 <> k -> lookup k0 (define k v m) = lookup k0 m.
Proof.
  intros Hne. unfold define. destruct (lookup k m) as [v0|];
    [apply lookup_assign_other; exact Hne|].
  destruct (arrayIndex k) as [i|]; [|apply lookup_assign_other; exact Hne].
  apply lookup_insertIndexKey_other. congruence.
Qed.

Lemma define_keys_NoDup {A : Type} (k : string) (v : A)
  (m : list (string * A)) :
  NoDup (map fst m) -> NoDup (map fst (define k v m)).
Proof.
  intros Hnd. unfold define. destruct (lookup k m) as [v0|] eqn:Hk;
    [apply assign_keys_NoDup; exact Hnd|].
  destruct (arrayIndex k) as [i|]; [|apply assign_keys_NoDup; exact Hnd].
  eapply Permutation_NoDup.
  - symmetry. apply Permutation_map. apply insertIndexKey_perm.
  - simpl. constructor; [|exact Hnd]. apply lookup_none_not_key. exact Hk.
Qed.

(** Keys created in the order b, 10, 9, 01, a, 10 are enumerated as 9, 10,
    b, 01, a: the array indices first and in numeric order; [01] is no
    array index. *)
Example define_enumeration_order :
  map fst
    (fold_left (fun m k => define k tt m)
       ["b"; "10"; "9"; "01"; "a"; "10"]%string [])
  = ["9"; "10"; "b"; "01"; "a"]%string.
Proof. reflexivity. Qed.

Lemma getTargetsData_NoDup (E : Env) (ns : NS) :
  NoDup (map fst (getTargetsData E ns)).
Proof.
  unfold getTargetsData.
  assert (Hgen : forall servers acc,
             NoDup (map fst acc) ->
             NoDup
               (map fst
                  (fold_left
                     (fun targetsData target =>
                        define target
                          (mkTargetData (now ns) (Deadline 0)
                             (getOptimalMoneyBatch E ns target)
                             (getServerSecurityLevel ns target)
                             (getServerMoneyAvailable ns target))
                          targetsData)
                     servers acc))).
  { induction servers as [|x servers IH]; intros acc Hacc; simpl;
      [exact Hacc|]. apply IH. apply define_keys_NoDup. exact Hacc. }
  apply Hgen. constructor.
Qed.

Lemma retained_NoDup (E : Env) (ns : NS) (tds : list (string * TargetData)) :
  NoDup (map fst tds) ->
  NoDup (retained ns (map fst (sortInfo (targetInfoOf E ns tds)))).
Proof.
  intros Hnd. unfold retained. apply NoDup_filter.
  eapply Permutation_NoDup; [|exact Hnd].
  rewrite <- (targetInfoOf_keys E ns tds). symmetry.
  apply Permutation_map. apply sortInfo_perm.
Qed.

Lemma newCycle_takes_overflow (E : Env) (l : Loop) (s : St)
  (targetPriority : list string) (overflow : option string) (ceiling : Q) :
  getTargetPriority E (world s) (targetsData l)
  = Done (targetPriority, (overflow, ceiling)) ->
  exists l1,
    newCycle E l s = Done (targetPriority, l1)
    /\ subShotgunTarget l1 = overflow
    /\ subShotgunMaxRam l1 = ceiling.
Proof.
  intros Hprio. unfold newCycle. rewrite Hprio. simpl.
  destruct (optStringEqb overflow (subShotgunTarget l)) eqn:Esame; simpl.
  - apply optStringEqb_eq in Esame. eexists. repeat split. simpl. congruence.
  - eexists. repeat split.
Qed.

Lemma scheduleTarget_shotgun (E : Env) (fuel : nat) (target : string)
  (l : Loop) (s s2 : St) (td0 td1 td2 : TargetData) :
  lookup target (targetsData l) = Some td0 ->
  ensureValidExecTime E fuel (world s) target td0 = Done (true, td1) ->
  ensureFixed E target td1 s = (true, td2, s2) ->
  targetFixValid E (world s2) target td2 = Done true ->
  (subShotgunTarget l <> Some target ->
   scheduleTarget E fuel target l s =
   Done (withTargetData target (fst (scheduleFullShotgun E target td2 s2)) l,
         snd (scheduleFullShotgun E target td2 s2)))
  /\ (subShotgunTarget l = Some target ->
      exists subBatchData' times' td3 s3,
        scheduleSubShotgun E target td2 (subShotgunBatchExecTimes l)
          (subShotgunMaxRam l) (subBatchData l) s2
        = (subBatchData', times', td3, s3)
        /\ scheduleTarget E fuel target l s =
           Done (mkLoop (assign target td3 (targetsData l)) (Some target)
                   times' (subShotgunMaxRam l) subBatchData', s3)).
Proof.
  intros Hlook Hvalid Hfixed Hcheck.
  unfold scheduleTarget. rewrite Hlook, Hvalid. simpl. rewrite Hfixed. simpl.
  rewrite Hcheck. simpl. split.
  - intros Hother.
    destruct (optStringEqb (subShotgunTarget l) (Some target)) eqn:Esub.
    { apply optStringEqb_eq in Esub. contradiction. }
    destruct (scheduleFullShotgun E target td2 s2) as [td3 s3]. reflexivity.
  - intros Hsub.
    assert (Esub : optStringEqb (subShotgunTarget l) (Some target) = true)
      by (apply optStringEqb_eq; exact Hsub).
    rewrite Esub, Hsub.
    destruct (scheduleSubShotgun E target td2 (subShotgunBatchExecTimes l)
                (subShotgunMaxRam l) (subBatchData l) s2)
      as [[[sbd' times'] td3] s3].
    exists sbd', times', td3, s3. split; reflexivity.
Qed.

(** C2.  For targets whose batches cost RAM (and an [execMargin] that is
    not 0, so that every quotient of the code is a number):
    [getTargetPriority] lists every key of [targetsData] with the money per
    millisecond of its batch divided by the RAM of the batch, and walks the
    keys in descending order of that quotient (a stable sort), with a budget
    that starts at [getAvailableHsbRam], the sum of [getServerAvailableHsbRam]
    over the servers of [getAvailableWGHServers].  The footprint of a target
    is the RAM of its batch times [(getMinSecWeakenTime + averageBatchASec) /
    execMargin * maxShotgunShells].  Either some retained target is the first
    whose footprint exceeds the budget left by the retained targets before
    it: then it is the sub shotgun target, the ceiling is exactly that
    budget, the priority list is those earlier targets and it, each of the
    earlier ones fitted and had its footprint subtracted, and the targets
    after it are left out.  Or every retained target fits: then the priority
    list is all of them, the sub shotgun target is null and the ceiling 0.
    No target is retained twice when the keys are distinct, as those of
    [getTargetsData] are; the main loop takes the sub shotgun target and the
    ceiling as they are returned, and a target of the list that reaches the
    scheduling gets the full shotgun unless it is the sub shotgun target,
    which gets the sub shotgun. *)
Theorem getTargetPriority_overflow (E : Env) (ns : NS)
  (tds : list (string * TargetData)) :
  ~ execMargin E == 0 ->
  (forall target td,
      In (target, td) tds -> ~ ramUsage (R E) (batch td) == 0) ->
  let targetInfo := sortInfo (targetInfoOf E ns tds) in
  let kept := retained ns (map fst targetInfo) in
  let total := getAvailableHsbRam E ns in
  targetInfoOf E ns tds
  = map
      (fun '(target, td) =>
         (target,
          getMoneyPerMs E ns target (batch td) / ramUsage (R E) (batch td)))
      tds
  /\ Permutation (map fst targetInfo) (map fst tds)
  /\ Permutation targetInfo (targetInfoOf E ns tds)
  /\ StronglySorted descending targetInfo
  /\ kept
     = filter (fun target => negb (ensureCanHack ns target))
         (map fst targetInfo)
  /\ total
     = fold_left
         (fun sum server => sum + getServerAvailableHsbRam ns server)
         (getAvailableWGHServers E ns) 0
  /\ (forall target td,
         lookup target tds = Some td ->
         footprint E ns tds target
         = ramUsage (R E) (batch td)
           * ((getMinSecWeakenTime E ns target + averageBatchASec E)
              / execMargin E * maxShotgunShells E))
  /\ (forall pre t budget,
         budgetAfter E ns tds [] budget = budget
         /\ budgetAfter E ns tds (pre ++ [t]) budget
            = budgetAfter E ns tds pre budget - footprint E ns tds t)
  /\ ((exists pre t post,
          kept = pre ++ t :: post
          /\ getTargetPriority E ns tds =
             Done (pre ++ [t], (Some t, budgetAfter E ns tds pre total))
          /\ budgetAfter E ns tds pre total < footprint E ns tds t
          /\ allFit E ns tds pre total)
      \/ (getTargetPriority E ns tds = Done (kept, (None, 0))
          /\ allFit E ns tds kept total))
  /\ (allFit E ns tds kept total ->
      getTargetPriority E ns tds = Done (kept, (None, 0)))
  /\ (NoDup (map fst tds) -> NoDup kept)
  /\ NoDup (map fst (getTargetsData E ns))
  /\ (forall l s targetPriority overflow ceiling,
         targetsData l = tds ->
         world s = ns ->
         getTargetPriority E ns tds
         = Done (targetPriority, (overflow, ceiling)) ->
         exists l1,
           newCycle E l s = Done (targetPriority, l1)
           /\ subShotgunTarget l1 = overflow
           /\ subShotgunMaxRam l1 = ceiling)
  /\ (forall fuel target l s s2 td0 td1 td2,
         lookup target (targetsData l) = Some td0 ->
         ensureValidExecTime E fuel (world s) target td0 = Done (true, td1) ->
         ensureFixed E target td1 s = (true, td2, s2) ->
         targetFixValid E (world s2) target td2 = Done true ->
         (subShotgunTarget l <> Some target ->
          scheduleTarget E fuel target l s =
          Done
            (withTargetData target
               (fst (scheduleFullShotgun E target td2 s2)) l,
             snd (scheduleFullShotgun E target td2 s2)))
         /\ (subShotgunTarget l = Some target ->
             exists subBatchData' times' td3 s3,
               scheduleSubShotgun E target td2 (subShotgunBatchExecTimes l)
                 (subShotgunMaxRam l) (subBatchData l) s2
               = (subBatchData', times', td3, s3)
               /\ scheduleTarget E fuel target l s =
                  Done
                    (mkLoop (assign target td3 (targetsData l)) (Some target)
                       times' (subShotgunMaxRam l) subBatchData', s3))).
Proof.
  intros _ _ targetInfo kept total.
  split.
  { unfold targetInfoOf. apply map_ext. intros [target td]. reflexivity. }
  split.
  { rewrite <- (targetInfoOf_keys E ns tds).
    apply Permutation_map. apply sortInfo_perm. }
  split; [apply sortInfo_perm|].
  split; [apply sortInfo_sorted|].
  split; [reflexivity|].
  split; [reflexivity|].
  split.
  { intros target td Hlook. unfold footprint. rewrite Hlook. reflexivity. }
  split.
  { intros pre t budget. split; [reflexivity|].
    unfold budgetAfter. rewrite fold_left_app. reflexivity. }
  assert (Hwalk :
            (exists pre t post,
                kept = pre ++ t :: post
                /\ getTargetPriority E ns tds =
                   Done (pre ++ [t], (Some t, budgetAfter E ns tds pre total))
                /\ budgetAfter E ns tds pre total < footprint E ns tds t
                /\ allFit E ns tds pre total)
            \/ (getTargetPriority E ns tds = Done (kept, (None, 0))
                /\ allFit E ns tds kept total)).
  { unfold getTargetPriority. fold targetInfo. fold total.
    apply (walkTargets_spec E ns tds (map fst targetInfo) [] total).
    intros t Ht. rewrite <- (targetInfoOf_keys E ns tds).
    eapply Permutation_in; [|exact Ht].
    apply Permutation_map. apply sortInfo_perm. }
  split; [exact Hwalk|].
  split.
  { intros Hfit.
    destruct Hwalk as [(pre & t & post & Hkept & _ & Hover & _) | [Hnone _]];
      [|exact Hnone].
    rewrite Hkept in Hfit. apply allFit_app in Hfit.
    destruct Hfit as [_ [Hle _]]. exfalso. apply (Qlt_not_le _ _ Hover Hle). }
  split; [apply retained_NoDup|].
  split; [apply getTargetsData_NoDup|].
  split.
  - intros l s targetPriority overflow ceiling <- <- Hprio.
    apply newCycle_takes_overflow. exact Hprio.
  - intros fuel target l s s2 td0 td1 td2.
    apply scheduleTarget_shotgun.
Qed.

(** The three targets of [HsbExample]: each batch costs 6.95 GB, and the
    footprint of n00dles is a hundred batches. *)
Lemma getTargetPriority_overflow_witness :
  Permutation
    (map fst
       (sortInfo
          (targetInfoOf HsbExample.env HsbExample.ns0
             (getTargetsData HsbExample.env HsbExample.ns0))))
    ["joesguns"; "foodnstuff"; "n00dles"]%string
  /\ footprint HsbExample.env HsbExample.ns0
       (getTargetsData HsbExample.env HsbExample.ns0) "n00dles"
     = ramUsage SetupExample.ram (mkThreads 1 2 1)
       * ((2000 + 0) / 200 * 10).
Proof.
  pose proof (getTargetPriority_overflow HsbExample.env HsbExample.ns0
                (getTargetsData HsbExample.env HsbExample.ns0)) as H.
  cbv zeta in H.
  assert (H1 : ~ execMargin HsbExample.env == 0) by discriminate.
  assert (H2 : forall target td,
             In (target, td) (getTargetsData HsbExample.env HsbExample.ns0) ->
             ~ ramUsage (R HsbExample.env) (batch td) == 0).
  { intros target td Hin. vm_compute in Hin.
    destruct Hin as [Heq | [Heq | [Heq | []]]];
      injection Heq as <- <-; discriminate. }
  destruct (H H1 H2) as (_ & Hperm & _ & _ & _ & _ & Hfoot & _).
  split; [exact Hperm|].
  apply (Hfoot "n00dles"%string
           (mkTargetData 50 (Deadline 0) (mkThreads 1 2 1) 10 1000)).
  reflexivity.
Defined.

(** Two targets with yields per RAM of 5 and 3 (and a third with 1): 912.4 GB
    pay the 695 GB of the first in full, the second overflows and gets the
    217.4 GB that are left, the third gets nothing. *)
Example getTargetPriority_two_targets :
  exists ceiling,
    getTargetPriority HsbExample.env HsbExample.ns0
      (getTargetsData HsbExample.env HsbExample.ns0)
    = Done (["n00dles"; "foodnstuff"]%string,
            (Some "foodnstuff"%string, ceiling))
    /\ ceiling == 2174 # 10
    /\ footprint HsbExample.env HsbExample.ns0
         (getTargetsData HsbExample.env HsbExample.ns0) "n00dles" == 695.
Proof. eexists. repeat split. Qed.

Lemma ensureCanHack_true_iff (ns : NS) (target : string) :
  ensureCanHack ns target = true <->
  ~ getServerMaxMoney ns target == 0
  /\ hasRootAccess ns target = true
  /\ getHackingLevel ns <= getServerRequiredHackingLevel ns target.
Proof.
  unfold ensureCanHack.
  destruct (Qeq_bool (getServerMaxMoney ns target) 0) eqn:EM.
  { apply Qeq_bool_iff in EM. split; [discriminate|]. intros [H _].
    contradiction. }
  apply Qeq_bool_neq in EM.
  destruct (hasRootAccess ns target); simpl.
  2:{ split; [discriminate|]. intros (_ & H & _). discriminate. }
  destruct (Qltb _ _) eqn:EL.
  - apply Qltb_lt in EL. split; [discriminate|]. intros (_ & _ & H).
    exfalso. apply (Qlt_not_le _ _ EL H).
  - apply Qltb_ge in EL. split; auto.
Qed.

(** C3, on the code.  With a hacking level of 10, n00dles (rooted, rich,
    required level 10) is eligible and darkweb (no root access, no money) is
    not; [getTargetPriority] skips n00dles and keeps darkweb. *)
Theorem getTargetPriority_skips_the_eligible :
  eligible HsbExample.nsEligibility "n00dles" = true
  /\ eligible HsbExample.nsEligibility "darkweb" = false
  /\ ensureCanHack HsbExample.nsEligibility "n00dles" = true
  /\ ensureCanHack HsbExample.nsEligibility "darkweb" = false
  /\ getTargetPriority HsbExample.env HsbExample.nsEligibility
       HsbExample.targetsEligibility
     = Done (["darkweb"%string], (None, 0)).
Proof. repeat split. Qed.

(** In the branch of [ensureFixed] that dispatches a fix batch which is not
    the optimal one, the fix status is the one it was. *)
Lemma ensureFixed_partial_fix_status (E : Env) (target : string)
  (td : TargetData) (s : St) (deadline : Q) :
  fixedStatus td = Deadline deadline ->
  deadline <= now (world s) ->
  targetFixed (world s) target = false ->
  equal (getBestFixBatch E (world s) target (getAvailableHsbRam E (world s)))
    (getOptimalFixBatch E (world s) target) = false ->
  fixedStatus (snd (fst (ensureFixed E target td s))) = Deadline deadline.
Proof.
  intros Hst Hdue Hnot Hne. unfold ensureFixed.
  rewrite Hst, Hnot. apply Qgtb_le in Hdue. rewrite Hdue, Hne. simpl.
  exact Hst.
Qed.

(** C1, on the code.  n00dles is due (deadline 0, now 50), not at its
    baseline, and the RAM pays 521 of the 1000 weaken threads of the optimal
    fix batch.  [ensureFixed] dispatches the batch for time 2120 and leaves
    the fix status at the old deadline 0, not at 2120. *)
Theorem ensureFixed_keeps_old_deadline :
  equal
    (getBestFixBatch HsbExample.env HsbExample.ns0 "n00dles"
       (getAvailableHsbRam HsbExample.env HsbExample.ns0))
    (getOptimalFixBatch HsbExample.env HsbExample.ns0 "n00dles") = false
  /\ exists td',
      ensureFixed HsbExample.env "n00dles"
        (HsbExample.tdAt 2120 (Deadline 0) 10) HsbExample.s0
      = (false, td',
         mkSt HsbExample.ns0
           [EvStartBatch "n00dles" (mkThreads 0 0 521) 2120])
      /\ fixedStatus td' = Deadline 0
      /\ fixedStatus td' <> Deadline 2120.
Proof.
  split; [reflexivity|].
  eexists. split; [reflexivity|]. split; [reflexivity|].
  simpl. discriminate.
Qed.

(** C10.  When the fix status is a deadline at or before now and the target
    is not at its baseline, [ensureFixed] dispatches the fix batch for the
    stored execution time, stores the security and the money it observes after
    the dispatch as the new baseline, moves [execTime] on by
    [minDeltaBatchExec] and returns false.  The turn of the main loop for the
    target then ends there, with the fix batch as its only dispatch, and the
    data it stored is what the next turn hands to [ensureValidExecTime]. *)
Theorem ensureFixed_dispatch_refreshes_baseline (E : Env) (target : string)
  (td : TargetData) (s : St) (deadline : Q) :
  fixedStatus td = Deadline deadline ->
  deadline <= now (world s) ->
  targetFixed (world s) target = false ->
  let fixBatch :=
    getBestFixBatch E (world s) target (getAvailableHsbRam E (world s)) in
  let s1 := startBatch E target fixBatch (execTime td) s in
  exists td',
    ensureFixed E target td s = (false, td', s1)
    /\ baseSecurity td' = getServerSecurityLevel (world s1) target
    /\ baseMoney td' = getServerMoneyAvailable (world s1) target
    /\ execTime td' = execTime td + minDeltaBatchExec E
    /\ batch td' = batch td
    /\ trace s1 = trace s ++ [EvStartBatch target fixBatch (execTime td)]
    /\ forall fuel l td0,
        lookup target (targetsData l) = Some td0 ->
        ensureValidExecTime E fuel (world s) target td0 = Done (true, td) ->
        scheduleTarget E fuel target l s
        = Done (withTargetData target td' l, s1)
        /\ lookup target (targetsData (withTargetData target td' l))
           = Some td'.
Proof.
  intros Hst Hdue Hnot fixBatch s1.
  apply Qgtb_le in Hdue.
  assert (Hrun : exists td',
             ensureFixed E target td s = (false, td', s1)
             /\ baseSecurity td' = getServerSecurityLevel (world s1) target
             /\ baseMoney td' = getServerMoneyAvailable (world s1) target
             /\ execTime td' = execTime td + minDeltaBatchExec E
             /\ batch td' = batch td).
  { unfold ensureFixed. rewrite Hst, Hnot, Hdue. fold fixBatch.
    destruct (equal fixBatch (getOptimalFixBatch E (world s) target));
      simpl; fold s1; eexists; repeat split. }
  destruct Hrun as (td' & Hfix & Hsec & Hmoney & Hexec & Hbatch).
  exists td'. do 5 (split; [assumption|]). split; [reflexivity|].
  intros fuel l td0 Hlook Hvalid. split.
  - unfold scheduleTarget. rewrite Hlook, Hvalid. simpl. rewrite Hfix.
    reflexivity.
  - simpl. apply lookup_assign_same.
Qed.

Lemma ensureFixed_dispatch_refreshes_baseline_witness :
  exists td',
    ensureFixed HsbExample.env "n00dles"
      (HsbExample.tdAt 2120 (Deadline 0) 7) HsbExample.s0
    = (false, td',
       mkSt HsbExample.ns0 [EvStartBatch "n00dles" (mkThreads 0 0 521) 2120])
    /\ baseSecurity td' = 10
    /\ execTime td' = 2120 + 20
    /\ scheduleTarget HsbExample.env 5 "n00dles"
         (mkLoop [("n00dles"%string, HsbExample.tdAt 0 (Deadline 0) 7)] None
            [] 0 (None, 0))
         HsbExample.s0
       = Done
           (mkLoop [("n00dles"%string, td')] None [] 0 (None, 0),
            mkSt HsbExample.ns0
              [EvStartBatch "n00dles" (mkThreads 0 0 521) 2120]).
Proof.
  destruct (ensureFixed_dispatch_refreshes_baseline HsbExample.env "n00dles"
              (HsbExample.tdAt 2120 (Deadline 0) 7) HsbExample.s0 0)
    as (td' & Hfix & Hsec & _ & Hexec & _ & _ & Hturn).
  - reflexivity.
  - unfold Qle; simpl; lia.
  - reflexivity.
  - exists td'. repeat split; try assumption.
    apply (Hturn 5%nat
             (mkLoop [("n00dles"%string, HsbExample.tdAt 0 (Deadline 0) 7)]
                None [] 0 (None, 0))
             (HsbExample.tdAt 0 (Deadline 0) 7)); reflexivity.
Defined.

(** C9, as the code has it.  When the sub shotgun target that
    [getTargetPriority] names differs from the current one, the head of the
    turn takes the new target and empties the list of the execution times of
    the batches already scheduled; the remainder batch and its execution time
    ([subBatchData]) stay as they were. *)
Theorem newCycle_resets_exec_times (E : Env) (l : Loop) (s : St)
  (targetPriority : list string) (newTarget : option string) (maxRam : Q) :
  getTargetPriority E (world s) (targetsData l)
  = Done (targetPriority, (newTarget, maxRam)) ->
  optStringEqb newTarget (subShotgunTarget l) = false ->
  exists l',
    newCycle E l s = Done (targetPriority, l')
    /\ subShotgunTarget l' = newTarget
    /\ subShotgunBatchExecTimes l' = []
    /\ subBatchData l' = subBatchData l
    /\ subShotgunMaxRam l' = maxRam
    /\ targetsData l' = targetsData l.
Proof.
  intros Hprio Hchanged. unfold newCycle. rewrite Hprio. simpl.
  rewrite Hchanged. simpl. eexists. repeat split.
Qed.

(** The first turn of [multiServerHSb] in the game of [HsbExample3]: 412.8 GB
    do not pay the 695 GB of n00dles, which gets the sub shotgun.  When the
    second turn begins, home has grown, n00dles is paid in full and the sub
    shotgun goes to foodnstuff. *)
Lemma newCycle_resets_exec_times_witness :
  exists l',
    newCycle HsbExample3.env (fst HsbExample3.afterFirstTurn)
      (snd HsbExample3.afterFirstTurn)
    = Done (["n00dles"; "foodnstuff"]%string, l')
    /\ subShotgunTarget (fst HsbExample3.afterFirstTurn)
       = Some "n00dles"%string
    /\ subShotgunTarget l' = Some "foodnstuff"%string
    /\ subShotgunBatchExecTimes l' = []
    /\ subBatchData l' = subBatchData (fst HsbExample3.afterFirstTurn).
Proof.
  destruct (newCycle_resets_exec_times HsbExample3.env
              (fst HsbExample3.afterFirstTurn)
              (snd HsbExample3.afterFirstTurn)
              ["n00dles"; "foodnstuff"]%string (Some "foodnstuff"%string)
              (budgetAfter HsbExample3.env
                 (world (snd HsbExample3.afterFirstTurn))
                 (targetsData (fst HsbExample3.afterFirstTurn))
                 ["n00dles"%string]
                 (getAvailableHsbRam HsbExample3.env
                    (world (snd HsbExample3.afterFirstTurn)))))
    as (l' & Hnew & Htarget & Htimes & Hsub & _).
  - reflexivity.
  - reflexivity.
  - exists l'. split; [exact Hnew|]. split; [reflexivity|].
    split; [exact Htarget|]. split; [exact Htimes | exact Hsub].
Defined.

(** The same run, turn by turn.  The first turn of [multiServerHSb] gives
    n00dles five batches and a remainder batch of one hack thread, due at
    12220.  At the head of the second turn, at time 10050, the sub shotgun
    target changes from n00dles to foodnstuff: the list of execution times is
    emptied, and the remainder batch of n00dles is still recorded. *)
Lemma newCycle_keeps_remainder_batch :
  exists l1 s1 targetPriority l2,
    cycle HsbExample3.env 10 HsbExample3.loop0 HsbExample3.start
    = Done (l1, s1)
    /\ newCycle HsbExample3.env l1 s1 = Done (targetPriority, l2)
    /\ subShotgunTarget l1 = Some "n00dles"%string
    /\ subShotgunTarget l2 = Some "foodnstuff"%string
    /\ subShotgunBatchExecTimes l1 = [12120; 12140; 12160; 12180; 12200]
    /\ subShotgunBatchExecTimes l2 = []
    /\ now (world s1) = 10050
    /\ subBatchData l1 = (Some (mkThreads 1 0 0), 12220)
    /\ subBatchData l2 = (Some (mkThreads 1 0 0), 12220)
    /\ subBatchData l2 <> (None, 0).
Proof.
  do 4 eexists. split; [vm_compute; reflexivity|].
  split; [vm_compute; reflexivity|].
  repeat split. discriminate.
Qed.

Lemma mentions_here (part rest : string) : mentions (part ++ rest) part.
Proof. exists ""%string, rest. reflexivity. Qed.

Lemma mentions_skip (a msg part : string) :
  mentions msg part -> mentions (a ++ msg) part.
Proof.
  intros (before & rest & ->). exists (a ++ before)%string, rest.
  induction a as [|c a IH]; simpl; [reflexivity|]. rewrite IH. reflexivity.
Qed.

Ltac find_mention :=
  repeat first [apply mentions_here | apply mentions_skip].

Lemma securityLines_mention (E : Env) (ns : NS) (target : string)
  (td : TargetData) (head : string) :
  let msg := (head ++ nl ++ securityLines E ns target td)%string in
  mentions msg (numberToString E (baseSecurity td))
  /\ mentions msg (numberToString E (getServerSecurityLevel ns target)).
Proof. unfold securityLines. split; find_mention. Qed.

Lemma moneyLines_mention (E : Env) (ns : NS) (target : string)
  (td : TargetData) (head : string) :
  let msg := (head ++ nl ++ moneyLines E ns target td)%string in
  mentions msg (numberToString E (baseMoney td))
  /\ mentions msg (numberToString E (getServerMoneyAvailable ns target)).
Proof. unfold moneyLines. split; find_mention. Qed.

Lemma targetFixValid_throws (E : Env) (ns : NS) (target : string)
  (td : TargetData) :
  ~ getServerSecurityLevel ns target == baseSecurity td
  \/ ~ getServerMoneyAvailable ns target == baseMoney td ->
  exists msg,
    targetFixValid E ns target td = Throw msg
    /\ (~ getServerSecurityLevel ns target == baseSecurity td ->
        mentions msg (numberToString E (baseSecurity td))
        /\ mentions msg (numberToString E (getServerSecurityLevel ns target)))
    /\ (getServerSecurityLevel ns target == baseSecurity td ->
        mentions msg (numberToString E (baseMoney td))
        /\ mentions msg
             (numberToString E (getServerMoneyAvailable ns target))).
Proof.
  intros Hdev. unfold targetFixValid.
  destruct (Qgtb (getServerSecurityLevel ns target) (baseSecurity td)) eqn:E1.
  { apply Qgtb_gt in E1. eexists. split; [reflexivity|]. split.
    - intros _. apply securityLines_mention.
    - intros Heq. exfalso. lra. }
  apply Qgtb_le in E1.
  destruct (Qltb (getServerSecurityLevel ns target) (baseSecurity td)) eqn:E2.
  { apply Qltb_lt in E2. eexists. split; [reflexivity|]. split.
    - intros _. apply securityLines_mention.
    - intros Heq. exfalso. lra. }
  apply Qltb_ge in E2.
  assert (Hsec : getServerSecurityLevel ns target == baseSecurity td)
    by (apply Qle_antisym; assumption).
  destruct (Qgtb (getServerMoneyAvailable ns target) (baseMoney td)) eqn:E3.
  { eexists. split; [reflexivity|]. split.
    - intros Hne. contradiction.
    - intros _. apply moneyLines_mention. }
  apply Qgtb_le in E3.
  destruct (Qltb (getServerMoneyAvailable ns target) (baseMoney td)) eqn:E4.
  { eexists. split; [reflexivity|]. split.
    - intros Hne. contradiction.
    - intros _. apply moneyLines_mention. }
  apply Qltb_ge in E4.
  exfalso. destruct Hdev as [Hne | Hne]; apply Hne;
    [exact Hsec | apply Qle_antisym; assumption].
Qed.

Lemma forTargets_app (E : Env) (fuel : nat) (pre rest : list string) :
  forall (l : Loop) (s : St),
    forTargets E fuel (pre ++ rest) l s =
    ('(l', s') <- forTargets E fuel pre l s ;; forTargets E fuel rest l' s').
Proof.
  induction pre as [|t pre IH]; intros l s; simpl; [reflexivity|].
  destruct (scheduleTarget E fuel t l s) as [[l' s']| |]; simpl; auto.
Qed.

Lemma cycles_throw_after (E : Env) (fuel : nat) (x y : Loop * St)
  (msg : string) :
  afterCycles E fuel x y ->
  cycle E fuel (fst y) (snd y) = Throw msg ->
  exists n, forall turns,
      (n <= turns)%nat -> cycles E turns fuel (fst x) (snd x) = Throw msg.
Proof.
  induction 1 as [x | l l' s s' y Hturn Hafter IH]; intros Hthrow.
  - exists 1%nat. intros [|turns] Hle; [lia|]. simpl. rewrite Hthrow.
    reflexivity.
  - destruct (IH Hthrow) as [n Hn]. exists (S n).
    intros [|turns] Hle; [lia|]. simpl. rewrite Hturn. simpl.
    apply Hn. lia.
Qed.

(** C5.  Whenever the security or the money the game shows differs from the
    baseline stored for the target, in either direction, [targetFixValid]
    throws, and the message carries the stored and the observed value of the
    quantity that differs (of the security when both do).  Nothing between the
    check and the top catches: the turn of the target, the loop over the
    targets, the turn of the main loop and, given fuel to get there,
    [multiServerHSb] and [main] all end with that error. *)
Theorem baseline_deviation_is_fatal (E : Env) (ns : NS) (target : string)
  (td : TargetData) :
  ~ getServerSecurityLevel ns target == baseSecurity td
  \/ ~ getServerMoneyAvailable ns target == baseMoney td ->
  exists msg,
    targetFixValid E ns target td = Throw msg
    /\ (~ getServerSecurityLevel ns target == baseSecurity td ->
        mentions msg (numberToString E (baseSecurity td))
        /\ mentions msg (numberToString E (getServerSecurityLevel ns target)))
    /\ (getServerSecurityLevel ns target == baseSecurity td ->
        mentions msg (numberToString E (baseMoney td))
        /\ mentions msg
             (numberToString E (getServerMoneyAvailable ns target)))
    /\ forall (fuel : nat) (l : Loop) (s s2 : St) (td0 td1 : TargetData),
        lookup target (targetsData l) = Some td0 ->
        ensureValidExecTime E fuel (world s) target td0 = Done (true, td1) ->
        ensureFixed E target td1 s = (true, td, s2) ->
        world s2 = ns ->
        scheduleTarget E fuel target l s = Throw msg
        /\ forall (pre rest : list string) (l0 l1 : Loop) (s0 : St),
            newCycle E l0 s0 = Done (pre ++ target :: rest, l1) ->
            forTargets E fuel pre l1 (goToNextSecHole E s0) = Done (l, s) ->
            cycle E fuel l0 s0 = Throw msg
            /\ forall sI : St,
                afterCycles E fuel
                  (mkLoop (getTargetsData E (world sI)) None [] 0 (None, 0), sI)
                  (l0, s0) ->
                exists n, forall turns,
                    (n <= turns)%nat ->
                    multiServerHSb E turns fuel sI = Throw msg
                    /\ main E turns fuel sI = Throw msg.
Proof.
  intros Hdev.
  destruct (targetFixValid_throws E ns target td Hdev)
    as (msg & Hthrow & Hsec & Hmoney).
  exists msg. split; [exact Hthrow|]. split; [exact Hsec|].
  split; [exact Hmoney|].
  intros fuel l s s2 td0 td1 Hlook Hvalid Hfixed Hworld.
  assert (Htarget : scheduleTarget E fuel target l s = Throw msg).
  { unfold scheduleTarget. rewrite Hlook, Hvalid. simpl. rewrite Hfixed.
    simpl. rewrite Hworld, Hthrow. reflexivity. }
  split; [exact Htarget|].
  intros pre rest l0 l1 s0 Hnew Hpre.
  assert (Hcycle : cycle E fuel l0 s0 = Throw msg).
  { unfold cycle. rewrite Hnew. simpl. rewrite forTargets_app, Hpre. simpl.
    rewrite Htarget. reflexivity. }
  split; [exact Hcycle|].
  intros sI Hafter.
  destruct (cycles_throw_after E fuel _ _ msg Hafter Hcycle) as [n Hn].
  exists n. intros turns Hle. split; apply Hn; exact Hle.
Qed.

Lemma baseline_deviation_is_fatal_witness :
  exists msg,
    targetFixValid HsbExample.env HsbExample.ns0 "n00dles"
      (HsbExample.tdAt 2120 Fixed 5) = Throw msg
    /\ mentions msg "5" /\ mentions msg "10"
    /\ cycle HsbExample.env 5 HsbExample.loopDrifted HsbExample.s0 = Throw msg.
Proof.
  destruct (baseline_deviation_is_fatal HsbExample.env HsbExample.ns0
              "n00dles" (HsbExample.tdAt 2120 Fixed 5))
    as (msg & Hthrow & Hsec & _ & Hup).
  - left. discriminate.
  - exists msg. split; [exact Hthrow|].
    split; [apply Hsec; discriminate|]. split; [apply Hsec; discriminate|].
    destruct (Hup 5%nat
                (mkLoop [("n00dles"%string, HsbExample.tdAt 0 Fixed 5)] None
                   [] 0 (None, 0))
                (goToNextSecHole HsbExample.env HsbExample.s0)
                (goToNextSecHole HsbExample.env HsbExample.s0)
                (HsbExample.tdAt 0 Fixed 5) (HsbExample.tdAt 2120 Fixed 5))
      as [_ Hcycle]; try reflexivity.
    destruct (Hcycle [] [] HsbExample.loopDrifted
                (mkLoop [("n00dles"%string, HsbExample.tdAt 0 Fixed 5)] None
                   [] 0 (None, 0))
                HsbExample.s0) as [Hc _]; [reflexivity | reflexivity |].
    exact Hc.
Defined.

(** The whole scheduler on a game that drifts.  In the first turn n00dles,
    at security 9 over a minimum of 5, gets its full fix batch and the
    baseline 9; in the second turn the game shows 8, and [main] ends with the
    error of [targetFixValid]. *)
Example main_dies_on_drift :
  main HsbExample.driftEnv 1 5 HsbExample.s0 = OutOfFuel
  /\ main HsbExample.driftEnv 2 5 HsbExample.s0
     = Throw ("targetData.baseSecurity measurement was incorrect" ++ nl
                ++ "    targetData.baseSecurity: 9" ++ nl
                ++ "    current security: 8" ++ nl
                ++ "    min security: 8" ++ nl
                ++ "    initial security: 15")%string.
Proof. split; reflexivity. Qed.

Section ExecTime.

Variable E : Env.
Hypothesis delta_pos : 0 < minDeltaBatchExec E.
Hypothesis next_end_later : forall t : Q, t <= getNextLowSecEnd E t.

Lemma advanced_none (t t' : Q) (s : St) :
  t' == t -> advancedByDispatches E t t' s s.
Proof.
  intros Heq. exists []. simpl. rewrite app_nil_r. repeat split.
  rewrite Heq. ring.
Qed.

Lemma advanced_one (t t' : Q) (target : string) (b : Threads) (at_ : Q)
  (s : St) :
  t' == t + minDeltaBatchExec E ->
  advancedByDispatches E t t' s (startBatch E target b at_ s).
Proof.
  intros Heq. exists [EvStartBatch target b at_]. simpl. repeat split.
  rewrite Heq. ring.
Qed.

Lemma advanced_trans (t1 t2 t3 : Q) (s1 s2 s3 : St) :
  advancedByDispatches E t1 t2 s1 s2 ->
  advancedByDispatches E t2 t3 s2 s3 ->
  advancedByDispatches E t1 t3 s1 s3.
Proof.
  intros (evs1 & Htr1 & Hall1 & Ht1) (evs2 & Htr2 & Hall2 & Ht2).
  exists (evs1 ++ evs2). split; [|split].
  - rewrite Htr2, Htr1, app_assoc. reflexivity.
  - rewrite forallb_app, Hall1, Hall2. reflexivity.
  - rewrite Ht2, Ht1, length_app, Nat2Z.inj_add, inject_Z_plus. ring.
Qed.

Lemma advanced_le (t t' : Q) (s s' : St) :
  advancedByDispatches E t t' s s' -> t <= t'.
Proof.
  intros (evs & _ & _ & Ht). rewrite Ht.
  assert (Hn : 0 <= inject_Z (Z.of_nat (List.length evs)))
    by (unfold Qle; simpl; lia).
  pose proof (Qmult_le_0_compat _ _ Hn (Qlt_le_weak _ _ delta_pos)) as Hm.
  lra.
Qed.

Ltac turn_moved :=
  simpl; split;
  [lra | split; [intros _; lra | intros Hsome; exfalso; apply Hsome; reflexivity]].

Lemma validExecTimeTurn_forward (ns : NS) (target : string)
  (td : TargetData) :
  let r := validExecTimeTurn E ns target td in
  execTime td <= execTime (snd r)
  /\ (fst r = None -> execTime td < execTime (snd r))
  /\ (fst r <> None ->
      snd r = td
      /\ firstPossibleExecTime E ns target <= execTime td
      /\ inLowSecHole E (execTime td) = false
      /\ inLowSecHole E (execTime td - minDeltaBatchExec E) = false
      /\ execTime td <= getNextSecHole E (execTime td - minDeltaBatchExec E)).
Proof.
  unfold validExecTimeTurn. fold (firstPossibleExecTime E ns target).
  pose proof (next_end_later (execTime td)) as Hnext.
  destruct (Qltb (execTime td) (firstPossibleExecTime E ns target)) eqn:E1.
  { apply Qltb_lt in E1. turn_moved. }
  apply Qltb_ge in E1.
  destruct (inLowSecHole E (execTime td)) eqn:E2; simpl; [turn_moved|].
  destruct (inLowSecHole E (execTime td - minDeltaBatchExec E)) eqn:E3; simpl;
    [turn_moved|].
  destruct (Qltb (getNextSecHole E (execTime td - minDeltaBatchExec E))
              (execTime td)) eqn:E4; [turn_moved|].
  apply Qltb_ge in E4.
  destruct (Qgtb _ (execMargin E)); simpl;
    (split; [apply Qle_refl | split; [discriminate|]]);
    intros _; repeat split; auto.
Qed.

Lemma validExecTimeLoop_forward (fuel : nat) (ns : NS) (target : string) :
  forall (td td' : TargetData) (b : bool),
    validExecTimeLoop E fuel ns target td = Done (b, td') ->
    execTime td <= execTime td'
    /\ firstPossibleExecTime E ns target <= execTime td'.
Proof.
  induction fuel as [|fuel IH]; intros td td' b Hrun; simpl in Hrun;
    [discriminate|].
  pose proof (validExecTimeTurn_forward ns target td) as Hturn.
  cbv zeta in Hturn.
  destruct (validExecTimeTurn E ns target td) as [[b0|] td1];
    simpl in Hturn; destruct Hturn as (Hle & Hlt & Hret).
  - injection Hrun as <- <-.
    destruct Hret as (-> & Hfirst & _); [discriminate|]. split; assumption.
  - destruct (IH td1 td' b Hrun) as [Hle' Hfirst]. split; [lra | exact Hfirst].
Qed.

Lemma ensureValidExecTime_forward (fuel : nat) (ns : NS) (target : string)
  (td td' : TargetData) (b : bool) :
  ensureValidExecTime E fuel ns target td = Done (b, td') ->
  execTime td <= execTime td'
  /\ (inLowSecHole E (now ns) = true ->
      firstPossibleExecTime E ns target <= execTime td').
Proof.
  unfold ensureValidExecTime. destruct (inLowSecHole E (now ns)); simpl.
  - intros Hrun. destruct (validExecTimeLoop_forward _ _ _ _ _ _ Hrun).
    split; auto.
  - intros Hrun. injection Hrun as <- <-. split; [apply Qle_refl|].
    discriminate.
Qed.

Lemma ensureFixed_advances (target : string) (td : TargetData) (s : St) :
  advancedByDispatches E (execTime td)
    (execTime (snd (fst (ensureFixed E target td s))))
    s (snd (ensureFixed E target td s)).
Proof.
  unfold ensureFixed.
  destruct (fixedStatus td) as [deadline| |];
    destruct (targetFixed (world s) target); simpl;
    try (apply advanced_none; reflexivity).
  destruct (Qgtb deadline (now (world s))); simpl;
    [apply advanced_none; reflexivity|].
  destruct (equal _ _); simpl; apply advanced_one; reflexivity.
Qed.

Lemma fullShotgunBatches_advances (n : nat) (target : string) :
  forall (td : TargetData) (s : St),
    advancedByDispatches E (execTime td)
      (execTime (fst (fullShotgunBatches E n target td s)))
      s (snd (fullShotgunBatches E n target td s))
    /\ List.length (trace (snd (fullShotgunBatches E n target td s)))
       = (List.length (trace s) + n)%nat.
Proof.
  induction n as [|n IH]; intros td s; simpl.
  - split; [apply advanced_none; reflexivity | lia].
  - destruct (IH (withExecTime (execTime td + minDeltaBatchExec E) td)
                (startBatch E target (batch td) (execTime td) s))
      as [Hadv Hlen].
    split.
    + eapply advanced_trans; [|exact Hadv].
      apply advanced_one. reflexivity.
    + rewrite Hlen. simpl. rewrite length_app. simpl. lia.
Qed.

Lemma subShotgunBatches_advances (n : nat) (target : string) :
  forall (td : TargetData) (times : list Q) (s : St),
    advancedByDispatches E (execTime td)
      (execTime (fst (fst (subShotgunBatches E n target td times s))))
      s (snd (subShotgunBatches E n target td times s)).
Proof.
  induction n as [|n IH]; intros td times s; simpl.
  - apply advanced_none; reflexivity.
  - eapply advanced_trans; [|apply IH].
    apply advanced_one. reflexivity.
Qed.

Lemma scheduleFullShotgun_advances (target : string) (td : TargetData)
  (s : St) :
  advancedByDispatches E (execTime td)
    (execTime (fst (scheduleFullShotgun E target td s)))
    s (snd (scheduleFullShotgun E target td s)).
Proof. unfold scheduleFullShotgun. apply fullShotgunBatches_advances. Qed.

Lemma scheduleSubShotgun_advances (target : string) (td : TargetData)
  (times : list Q) (maxRam : Q) (sbd : option Threads * Q) (s : St) :
  advancedByDispatches E (execTime td)
    (execTime (snd (fst (scheduleSubShotgun E target td times maxRam sbd s))))
    s (snd (scheduleSubShotgun E target td times maxRam sbd s)).
Proof.
  unfold scheduleSubShotgun.
  match goal with
  | |- context [subShotgunBatches E ?n target td times s] =>
      pose proof (subShotgunBatches_advances n target td times s) as Hloop;
      destruct (subShotgunBatches E n target td times s) as [[td1 times1] s1]
  end.
  simpl in Hloop.
  destruct (1 <=? getMaxBatchesForTime E (execTime td1))%Z; simpl;
    [|exact Hloop].
  destruct (Qltb (snd sbd) (now (world s1))); simpl; [|exact Hloop].
  eapply advanced_trans; [exact Hloop|]. apply advanced_one. reflexivity.
Qed.

Lemma advanced_lt (t t' : Q) (s s' : St) :
  advancedByDispatches E t t' s s' -> trace s' <> trace s -> t < t'.
Proof.
  intros (evs & Htr & _ & Ht) Hne. rewrite Ht.
  destruct evs as [|e evs].
  { exfalso. apply Hne. rewrite Htr. apply app_nil_r. }
  assert (Hn : 1 <= inject_Z (Z.of_nat (List.length (e :: evs))))
    by (unfold Qle; simpl; lia).
  pose proof (Qmult_le_compat_r _ _ _ Hn (Qlt_le_weak _ _ delta_pos)) as Hm.
  lra.
Qed.

Lemma assign_forward (tds : list (string * TargetData)) (target : string)
  (td0 tdX : TargetData) :
  lookup target tds = Some td0 ->
  execTime td0 <= execTime tdX ->
  forall t td,
    lookup t tds = Some td ->
    exists td',
      lookup t (assign target tdX tds) = Some td'
      /\ execTime td <= execTime td'.
Proof.
  intros Hlook Hle t td Ht.
  destruct (String.eqb_spec t target) as [->|Hne].
  - rewrite lookup_assign_same. exists tdX. split; [reflexivity|].
    rewrite Hlook in Ht. injection Ht as <-. exact Hle.
  - rewrite lookup_assign_other by exact Hne.
    exists td. split; [exact Ht | apply Qle_refl].
Qed.

Lemma scheduleTarget_forward (fuel : nat) (target : string) (l l' : Loop)
  (s s' : St) :
  scheduleTarget E fuel target l s = Done (l', s') ->
  forall t td,
    lookup t (targetsData l) = Some td ->
    exists td',
      lookup t (targetsData l') = Some td' /\ execTime td <= execTime td'.
Proof.
  unfold scheduleTarget.
  destruct (lookup target (targetsData l)) as [td0|] eqn:Hlook;
    [|discriminate].
  destruct (ensureValidExecTime E fuel (world s) target td0)
    as [[valid td1]| |] eqn:Hvalid; simpl; try discriminate.
  apply ensureValidExecTime_forward in Hvalid. destruct Hvalid as [H01 _].
  destruct valid; simpl.
  2:{ intros Hrun. injection Hrun as <- <-. simpl.
      apply (assign_forward _ _ td0); assumption. }
  pose proof (ensureFixed_advances target td1 s) as Hfix.
  apply advanced_le in Hfix.
  destruct (ensureFixed E target td1 s) as [[ready td2] s2]. simpl in Hfix.
  destruct ready; simpl.
  2:{ intros Hrun. injection Hrun as <- <-. simpl.
      apply (assign_forward _ _ td0); [assumption | lra]. }
  destruct (targetFixValid E (world s2) target td2); simpl; try discriminate.
  destruct (optStringEqb (subShotgunTarget l) (Some target)).
  - pose proof (scheduleSubShotgun_advances target td2
                  (subShotgunBatchExecTimes l) (subShotgunMaxRam l)
                  (subBatchData l) s2) as Hsub.
    apply advanced_le in Hsub.
    destruct (scheduleSubShotgun E target td2 (subShotgunBatchExecTimes l)
                (subShotgunMaxRam l) (subBatchData l) s2)
      as [[[sbd' times'] td3] s3].
    simpl in Hsub. intros Hrun. injection Hrun as <- <-. simpl.
    apply (assign_forward _ _ td0); [assumption | lra].
  - pose proof (scheduleFullShotgun_advances target td2 s2) as Hfull.
    apply advanced_le in Hfull.
    destruct (scheduleFullShotgun E target td2 s2) as [td3 s3].
    simpl in Hfull. intros Hrun. injection Hrun as <- <-. simpl.
    apply (assign_forward _ _ td0); [assumption | lra].
Qed.

Lemma forTargets_forward (fuel : nat) (targetPriority : list string) :
  forall (l l' : Loop) (s s' : St),
    forTargets E fuel targetPriority l s = Done (l', s') ->
    forall t td,
      lookup t (targetsData l) = Some td ->
      exists td',
        lookup t (targetsData l') = Some td' /\ execTime td <= execTime td'.
Proof.
  induction targetPriority as [|target rest IH]; intros l l' s s' Hrun t td Ht;
    simpl in Hrun.
  - injection Hrun as <- <-. exists td. split; [exact Ht | apply Qle_refl].
  - destruct (scheduleTarget E fuel target l s) as [[l1 s1]| |] eqn:Hone;
      simpl in Hrun; try discriminate.
    destruct (scheduleTarget_forward _ _ _ _ _ _ Hone t td Ht)
      as (td1 & Ht1 & Hle1).
    destruct (IH _ _ _ _ Hrun t td1 Ht1) as (td' & Ht' & Hle').
    exists td'. split; [exact Ht' | lra].
Qed.

Lemma newCycle_targetsData (l l1 : Loop) (s : St)
  (targetPriority : list string) :
  newCycle E l s = Done (targetPriority, l1) ->
  targetsData l1 = targetsData l.
Proof.
  unfold newCycle.
  destruct (getTargetPriority E (world s) (targetsData l))
    as [[prio [newTarget maxRam]]| |]; simpl; try discriminate.
  destruct (negb _); intros Hrun; injection Hrun as <- <-; reflexivity.
Qed.

Lemma cycle_forward (fuel : nat) (l l' : Loop) (s s' : St) :
  cycle E fuel l s = Done (l', s') ->
  forall t td,
    lookup t (targetsData l) = Some td ->
    exists td',
      lookup t (targetsData l') = Some td' /\ execTime td <= execTime td'.
Proof.
  unfold cycle.
  destruct (newCycle E l s) as [[prio l1]| |] eqn:Hnew; simpl;
    try discriminate.
  apply newCycle_targetsData in Hnew. intros Hrun t td Ht.
  rewrite <- Hnew in Ht. exact (forTargets_forward _ _ _ _ _ _ Hrun t td Ht).
Qed.

(** C4.  With a positive [minDeltaBatchExec] and a [getNextLowSecEnd] that
    answers with an instant at or after the one it is asked about, the stored
    execution time of a target never decreases.  A turn of the loop of
    [ensureValidExecTime] leaves it or moves it forward, strictly when the
    loop goes on, and the loop returns only with an execution time at or after
    the next hole end plus [minDeltaBatchExec] plus the weaken time that
    collides with no hole.  [ensureFixed], [scheduleFullShotgun] and
    [scheduleSubShotgun] do nothing but dispatch batches, and move the
    execution time on by [minDeltaBatchExec] for each batch, strictly forward
    when there is one.  Across a whole turn of the main loop every target
    keeps an execution time at or after the one it had. *)
Theorem execTime_never_decreases :
  (forall ns target td,
      let r := validExecTimeTurn E ns target td in
      execTime td <= execTime (snd r)
      /\ (fst r = None -> execTime td < execTime (snd r))
      /\ (fst r <> None ->
          snd r = td
          /\ firstPossibleExecTime E ns target <= execTime td
          /\ inLowSecHole E (execTime td) = false
          /\ inLowSecHole E (execTime td - minDeltaBatchExec E) = false
          /\ execTime td
             <= getNextSecHole E (execTime td - minDeltaBatchExec E)))
  /\ (forall fuel ns target td b td',
         ensureValidExecTime E fuel ns target td = Done (b, td') ->
         execTime td <= execTime td'
         /\ (inLowSecHole E (now ns) = true ->
             firstPossibleExecTime E ns target <= execTime td'))
  /\ (forall target td s,
         advancedByDispatches E (execTime td)
           (execTime (snd (fst (ensureFixed E target td s))))
           s (snd (ensureFixed E target td s)))
  /\ (forall target td s,
         advancedByDispatches E (execTime td)
           (execTime (fst (scheduleFullShotgun E target td s)))
           s (snd (scheduleFullShotgun E target td s)))
  /\ (forall target td times maxRam sbd s,
         advancedByDispatches E (execTime td)
           (execTime
              (snd (fst (scheduleSubShotgun E target td times maxRam sbd s))))
           s (snd (scheduleSubShotgun E target td times maxRam sbd s)))
  /\ (forall t t' s s',
         advancedByDispatches E t t' s s' ->
         t <= t' /\ (trace s' <> trace s -> t < t'))
  /\ (forall fuel l s l' s',
         cycle E fuel l s = Done (l', s') ->
         forall target td,
           lookup target (targetsData l) = Some td ->
           exists td',
             lookup target (targetsData l') = Some td'
             /\ execTime td <= execTime td').
Proof.
  split; [exact validExecTimeTurn_forward|].
  split; [intros fuel ns target td b td'; apply ensureValidExecTime_forward|].
  split; [exact ensureFixed_advances|].
  split; [exact scheduleFullShotgun_advances|].
  split; [exact scheduleSubShotgun_advances|].
  split; [|intros fuel l s l' s'; apply cycle_forward].
  intros t t' s s' Hadv. split; [eapply advanced_le | eapply advanced_lt];
    exact Hadv.
Qed.

End ExecTime.

Lemma exGetNextLowSecEnd_later (t : Q) : t <= HsbExample.exGetNextLowSecEnd t.
Proof.
  unfold HsbExample.exGetNextLowSecEnd, HsbExample.holePeriod,
    HsbExample.holeTime.
  pose proof (Qle_ceiling ((t - 100) / 1000)) as Hceil.
  set (c := inject_Z (Qceiling ((t - 100) / 1000))) in *.
  assert (H : (t - 100) / 1000 * 1000 <= c * 1000)
    by (apply Qmult_le_compat_r; [exact Hceil | discriminate]).
  assert (Hfield : (t - 100) / 1000 * 1000 == t - 100) by field.
  rewrite Hfield in H. lra.
Qed.

Lemma execTime_never_decreases_witness :
  execTime (HsbExample.tdAt 0 (Deadline 0) 10)
  < execTime
      (snd (validExecTimeTurn HsbExample.env HsbExample.ns0 "n00dles"
              (HsbExample.tdAt 0 (Deadline 0) 10)))
  /\ advancedByDispatches HsbExample.env 2120
       (execTime
          (snd (fst (ensureFixed HsbExample.env "n00dles"
                       (HsbExample.tdAt 2120 (Deadline 0) 10) HsbExample.s0))))
       HsbExample.s0
       (snd (ensureFixed HsbExample.env "n00dles"
               (HsbExample.tdAt 2120 (Deadline 0) 10) HsbExample.s0)).
Proof.
  destruct (execTime_never_decreases HsbExample.env eq_refl
              exGetNextLowSecEnd_later) as (Hturn & _ & Hfix & _).
  split.
  - apply (Hturn HsbExample.ns0 "n00dles"%string
             (HsbExample.tdAt 0 (Deadline 0) 10)).
    reflexivity.
  - apply (Hfix "n00dles"%string (HsbExample.tdAt 2120 (Deadline 0) 10)
             HsbExample.s0).
Defined.

End HsbTargeterFacts.

(** * Further facts about SetupServer.js *)

Module SetupServerExtra.
Import SetupServer.

Lemma fold_emit_trace (E : Env) (target : string) (programs : list string) :
  forall s : St,
    trace
      (fold_left (fun s' p => emit E (EvPortOpener p target) s') programs s)
    = trace s ++ map (fun p => EvPortOpener p target) programs.
Proof.
  induction programs as [|p programs IH]; intros s; simpl.
  - rewrite app_nil_r. reflexivity.
  - rewrite IH. simpl. rewrite <- app_assoc. reflexivity.
Qed.

Lemma in_firstn {A : Type} (n : nat) (l : list A) (x : A) :
  In x (firstn n l) -> In x l.
Proof.
  intros H. rewrite <- (firstn_skipn n l). apply in_or_app. left. exact H.
Qed.

(** X1.  [getRoot] answers false exactly when the target is not rooted and
    home holds fewer port openers than the target has ports to open; it has
    then done nothing.  On a target that is rooted already it answers true
    and does nothing either. *)
Theorem getRoot_refuses_iff (E : Env) (target : string) (s : St) :
  let portOpeners :=
    filter (fun p => existsb (String.eqb p) (ls (world s) "home"))
      portOpenerPrograms in
  let portsReq := getServerNumPortsRequired (world s) target in
  (fst (getRoot E target s) = false <->
   hasRootAccess (world s) target = false
   /\ (List.length portOpeners < portsReq)%nat)
  /\ (fst (getRoot E target s) = false -> snd (getRoot E target s) = s)
  /\ (hasRootAccess (world s) target = true -> getRoot E target s = (true, s)).
Proof.
  intros portOpeners portsReq. unfold getRoot.
  fold portOpeners. fold portsReq.
  destruct (hasRootAccess (world s) target).
  { simpl. repeat split; try discriminate. intros [H _]. discriminate. }
  destruct (Nat.ltb_spec (List.length portOpeners) portsReq) as [Hlt|Hge];
    simpl; repeat split; auto; try discriminate.
  intros [_ Hlt]. lia.
Qed.

(** X2.  On a target that is not rooted, with enough port openers on home,
    [getRoot] runs as many openers as the target has ports, the first ones of
    BruteSSH, FTPCrack, relaySMTP, HTTPWorm and SQLInject that are on home, in
    that order, then nukes the target and answers true.  It runs no program
    that is not on home. *)
Theorem getRoot_opens_then_nukes (E : Env) (target : string) (s : St) :
  let portOpeners :=
    filter (fun p => existsb (String.eqb p) (ls (world s) "home"))
      portOpenerPrograms in
  let portsReq := getServerNumPortsRequired (world s) target in
  hasRootAccess (world s) target = false ->
  (portsReq <= List.length portOpeners)%nat ->
  fst (getRoot E target s) = true
  /\ trace (snd (getRoot E target s))
     = trace s
       ++ map (fun p => EvPortOpener p target) (firstn portsReq portOpeners)
       ++ [EvNuke target]
  /\ List.length (firstn portsReq portOpeners) = portsReq
  /\ Forall (fun p => In p (ls (world s) "home") /\ In p portOpenerPrograms)
       (firstn portsReq portOpeners).
Proof.
  intros portOpeners portsReq Hroot Henough. unfold getRoot.
  fold portOpeners. fold portsReq. rewrite Hroot.
  destruct (Nat.ltb_spec (List.length portOpeners) portsReq) as [Hlt|_];
    [lia|].
  simpl. split; [reflexivity|]. split.
  - rewrite fold_emit_trace, <- app_assoc. reflexivity.
  - split; [apply firstn_length_le; exact Henough|].
    apply Forall_forall. intros p Hp.
    apply in_firstn in Hp. unfold portOpeners in Hp.
    apply filter_In in Hp. destruct Hp as [Hknown Hhome].
    split; [|exact Hknown].
    apply existsb_exists in Hhome. destruct Hhome as (x & Hx & Heq).
    apply String.eqb_eq in Heq. subst x. exact Hx.
Qed.

Lemma getRoot_opens_then_nukes_witness :
  fst (getRoot (SetupExample.env 8) "a" (mkSt SetupExample2.nsLocked []))
  = true
  /\ trace
       (snd (getRoot (SetupExample.env 8) "a" (mkSt SetupExample2.nsLocked [])))
     = [EvPortOpener "BruteSSH.exe" "a"; EvNuke "a"].
Proof.
  destruct (getRoot_opens_then_nukes (SetupExample.env 8) "a"
              (mkSt SetupExample2.nsLocked []) eq_refl)
    as (Hret & Htrace & _); [simpl; lia|].
  split; [exact Hret | exact Htrace].
Defined.

(** X3.  [fixSecurity] answers true exactly when there is RAM and either the
    security is at its minimum or the RAM pays the optimal weaken count.
    Without RAM, or with the security at its minimum, it does nothing; when
    the RAM pays the optimal count it dispatches exactly that count and waits
    10 ms. *)
Theorem fixSecurity_true_iff (E : Env) (target : string)
  (servers : list string) (C : Q) (s : St) :
  let fromMin :=
    getServerSecurityLevel (world s) target
    - getServerMinSecurityLevel (world s) target in
  let optimal := Math_ceil (fromMin / weakenAnalyze (world s) 1) in
  let affordable := Math_floor (C / ram_weaken (R E)) in
  (fst (fixSecurity E target servers C s) = true <->
   ~ C == 0 /\ (fromMin == 0 \/ (optimal <= affordable)%Z))
  /\ (C == 0 \/ fromMin == 0 -> snd (fixSecurity E target servers C s) = s)
  /\ (~ C == 0 -> ~ fromMin == 0 -> (optimal <= affordable)%Z ->
      snd (fixSecurity E target servers C s)
      = sleep E 10 (startBatch E target (mkThreads 0 0 optimal) servers s)).
Proof.
  intros fromMin optimal affordable. unfold fixSecurity.
  fold fromMin. fold optimal. fold affordable.
  destruct (Qeq_bool C 0) eqn:EC.
  { apply Qeq_bool_iff in EC. simpl. repeat split; auto; try discriminate.
    - intros [H _]. contradiction.
    - intros H. contradiction. }
  apply Qeq_bool_neq in EC.
  destruct (Qneqb fromMin 0) eqn:EF.
  - apply Qneqb_neq in EF.
    destruct (Z.leb_spec optimal affordable) as [Hle|Hgt]; simpl.
    + repeat split; auto.
      * intros [H|H]; contradiction.
      * intros _ _ _. rewrite Z.min_l by exact Hle. reflexivity.
    + repeat split; try discriminate.
      * intros [_ [H|H]]; [contradiction | lia].
      * intros [H|H]; contradiction.
      * intros _ _ H. lia.
  - apply Qneqb_eq in EF. simpl. repeat split; auto. intros _ H. contradiction.
Qed.

Lemma searched_hack_zero (E : Env) (ns : NS) (target : string)
  (trials : list Q) :
  forall th : Threads,
    hack th = 0%Z ->
    hack (fold_left (fun th x => snd (growPToRam E ns target x th)) trials th)
    = 0%Z.
Proof.
  induction trials as [|x trials IH]; intros th Hth; simpl; [exact Hth|].
  apply IH. simpl. exact Hth.
Qed.

(** X4.  The batch that the search of [fixMoney] leaves in [threads] is the
    one of the last point the search tried, whichever point it settled on:
    no hack threads, the grow threads that point asks for, rounded up, and
    the weaken threads that undo the security of those grow threads, rounded
    up.  A search that tries nothing leaves the zero vector. *)
Theorem searchedThreads_is_last_trial (E : Env) (ns : NS) (target : string)
  (C : Q) :
  let start := mkThreads 0 0 0 in
  let trials :=
    estimateX E ns (fun x => fst (growPToRam E ns target x start)) C 1
      (maxMul ns target) 0 (1 # 10) in
  hack (searchedThreads E ns target C) = 0%Z
  /\ (trials = [] -> searchedThreads E ns target C = start)
  /\ (forall earlier x,
         trials = earlier ++ [x] ->
         let g := Math_ceil (growthAnalyze ns target x) in
         searchedThreads E ns target C
         = mkThreads 0 g
             (Math_ceil (growthAnalyzeSecurity ns g / weakenAnalyze ns 1))
         /\ ramUsage (R E) (searchedThreads E ns target C)
            = fst (growPToRam E ns target x start)).
Proof.
  intros start trials. unfold searchedThreads. fold start. fold trials.
  split; [apply searched_hack_zero; reflexivity|].
  split; [intros ->; reflexivity|].
  intros earlier x ->. rewrite fold_left_app. simpl.
  pose proof (searched_hack_zero E ns target earlier start eq_refl) as Hhack.
  set (th0 := fold_left _ earlier start) in *.
  unfold growPToRam. simpl. rewrite Hhack. split; reflexivity.
Qed.

(** X5.  Without RAM [fixMoney] answers false and does nothing; with RAM and
    the money at its maximum it answers true and does nothing; otherwise it
    dispatches one batch, the one the search left, and then sleeps. *)
Theorem fixMoney_dispatches_once (E : Env) (target : string)
  (servers : list string) (C : Q) (s : St) :
  (C == 0 -> fixMoney E target servers C s = (false, s))
  /\ (~ C == 0 ->
      getServerMoneyAvailable (world s) target
      == getServerMaxMoney (world s) target ->
      fixMoney E target servers C s = (true, s))
  /\ (~ C == 0 ->
      ~ getServerMoneyAvailable (world s) target
        == getServerMaxMoney (world s) target ->
      exists ms,
        trace (snd (fixMoney E target servers C s))
        = trace s
          ++ [EvStartBatch target (searchedThreads E (world s) target C)
                servers;
              EvSleep ms]).
Proof.
  unfold fixMoney. split; [|split].
  - intros HC. apply Qeq_bool_iff in HC. rewrite HC. reflexivity.
  - intros HC Hmax. destruct (Qeq_bool C 0) eqn:EC.
    { apply Qeq_bool_iff in EC. contradiction. }
    apply Qneqb_eq in Hmax. rewrite Hmax. reflexivity.
  - intros HC Hmax. destruct (Qeq_bool C 0) eqn:EC.
    { apply Qeq_bool_iff in EC. contradiction. }
    apply Qneqb_neq in Hmax. rewrite Hmax.
    destruct (Qltb _ (1 # 2)); eexists; simpl; rewrite <- app_assoc;
      reflexivity.
Qed.

(** X6.  While no RAM is available [fixServer] never ends: every turn of its
    loop sleeps 100 ms, gets false from [fixSecurity] before anything is
    dispatched, and starts over, whatever the state of the target. *)
Theorem fixServer_without_ram_spins (E : Env) (target : string)
  (servers : list string) :
  (forall ns, getAvailableRam E ns servers == 0) ->
  forall (fuel : nat) (s : St),
    fixServerTurn E target servers s = (false, sleep E 100 s)
    /\ fixServerLoop E fuel target servers s = OutOfFuel.
Proof.
  intros Hnone.
  assert (Hturn : forall s,
             fixServerTurn E target servers s = (false, sleep E 100 s)).
  { intros s. unfold fixServerTurn, fixSecurity.
    pose proof (Hnone (world (sleep E 100 s))) as H0.
    apply Qeq_bool_iff in H0. rewrite H0. reflexivity. }
  intros fuel s. split; [apply Hturn|].
  revert s. induction fuel as [|fuel IH]; intros s; simpl; [reflexivity|].
  rewrite Hturn. apply IH.
Qed.

Lemma fixServer_without_ram_spins_witness :
  fixServerLoop (SetupExample.env 0) 7 "a" ["home"%string] SetupExample.s0
  = OutOfFuel.
Proof.
  apply (fixServer_without_ram_spins (SetupExample.env 0) "a"
           ["home"%string]).
  intros ns. reflexivity.
Defined.

(** X7.  When, after the 100 ms sleep that opens a turn, there is RAM, the
    security is at its minimum and the money at its maximum, the loop of
    [fixServer] ends in that turn with nothing dispatched. *)
Theorem fixServer_ends_when_fixed (E : Env) (target : string)
  (servers : list string) (s : St) :
  let s0 := sleep E 100 s in
  ~ getAvailableRam E (world s0) servers == 0 ->
  getServerSecurityLevel (world s0) target
  - getServerMinSecurityLevel (world s0) target == 0 ->
  getServerMoneyAvailable (world s0) target
  == getServerMaxMoney (world s0) target ->
  fixServerTurn E target servers s = (true, s0)
  /\ trace s0 = trace s ++ [EvSleep 100]
  /\ forall fuel, fixServerLoop E (S fuel) target servers s = Done s0.
Proof.
  intros s0 Hram Hsec Hmoney.
  assert (Hturn : fixServerTurn E target servers s = (true, s0)).
  { unfold fixServerTurn, fixSecurity, fixMoney. fold s0.
    destruct (Qeq_bool (getAvailableRam E (world s0) servers) 0) eqn:EA.
    { apply Qeq_bool_iff in EA. contradiction. }
    apply Qneqb_eq in Hsec. rewrite Hsec. simpl.
    change (react E (EvSleep 100) (world s)) with (world s0). rewrite EA.
    apply Qneqb_eq in Hmoney. rewrite Hmoney. reflexivity. }
  split; [exact Hturn|]. split; [reflexivity|].
  intros fuel. simpl. rewrite Hturn. reflexivity.
Qed.

Lemma fixServer_ends_when_fixed_witness :
  fixServerLoop (SetupExample.env 8) 1 "a" ["home"%string]
    (mkSt SetupExample2.nsFixed [])
  = Done (mkSt SetupExample2.nsFixed [EvSleep 100]).
Proof.
  pose proof (fixServer_ends_when_fixed (SetupExample.env 8) "a"
                ["home"%string] (mkSt SetupExample2.nsFixed [])) as H.
  cbv zeta in H.
  assert (H1 : ~ 8 == 0) by discriminate.
  assert (H2 : 5 - 5 == 0) by reflexivity.
  assert (H3 : 100 == 100) by reflexivity.
  exact (proj2 (proj2 (H H1 H2 H3)) 0%nat).
Defined.

End SetupServerExtra.

(** * Further facts about HsbTargeter.js *)

Module HsbTargeterExtra.
Import HsbTargeter Measures.

(** X8.  The servers for the threads are the rooted servers other than the
    host, in the order of [getServers]; the host is added, at the end, exactly
    when those servers together hold less RAM (2 GB set aside on each) than
    the host has.  A server that is not the host is on the list if and only
    if it is known and rooted. *)
Theorem getAvailableWGHServers_members (E : Env) (ns : NS) :
  let host := getHostname ns in
  let rooted :=
    filter (fun x => negb (String.eqb x host) && hasRootAccess ns x)
      (getServers E ns) in
  let serverRam :=
    fold_left
      (fun partialSum serverName =>
         partialSum + Math_max 0 (getServerMaxRam ns serverName - 2))
      rooted 0 in
  (serverRam < getServerMaxRam ns host ->
   getAvailableWGHServers E ns = rooted ++ [host])
  /\ (getServerMaxRam ns host <= serverRam ->
      getAvailableWGHServers E ns = rooted)
  /\ (forall x,
         x <> host ->
         (In x (getAvailableWGHServers E ns) <->
          In x (getServers E ns) /\ hasRootAccess ns x = true)).
Proof.
  intros host rooted serverRam.
  assert (Hfilter :
            filter
              (fun x =>
                 if String.eqb x (getHostname ns) then false
                 else if negb (hasRootAccess ns x) then false else true)
              (getServers E ns) = rooted).
  { unfold rooted, host. apply filter_ext. intros x.
    destruct (String.eqb x (getHostname ns)), (hasRootAccess ns x);
      reflexivity. }
  assert (Hrooted : forall x,
             x <> host ->
             (In x rooted <->
              In x (getServers E ns) /\ hasRootAccess ns x = true)).
  { intros x Hx. unfold rooted. rewrite filter_In, andb_true_iff.
    apply String.eqb_neq in Hx. rewrite Hx. simpl. tauto. }
  unfold getAvailableWGHServers. rewrite Hfilter.
  fold host. fold serverRam.
  destruct (Qltb serverRam (getServerMaxRam ns host)) eqn:Elt.
  - apply Qltb_lt in Elt. split; [reflexivity|]. split.
    + intros Hle. exfalso. apply (Qlt_not_le _ _ Elt Hle).
    + intros x Hx. rewrite in_app_iff. rewrite <- (Hrooted x Hx). simpl.
      split; [intros [H|[H|[]]]; [exact H | congruence] | auto].
  - apply Qltb_ge in Elt. split.
    + intros Hlt. exfalso. apply (Qlt_not_le _ _ Hlt Elt).
    + split; [reflexivity | exact Hrooted].
Qed.

Lemma lookup_ramMap (g : string -> Q) (f : string) (names : list string) :
  lookup f (map (fun scriptName => (scriptName, g scriptName)) names)
  = if existsb (String.eqb f) names then Some (g f) else None.
Proof.
  induction names as [|n names IH]; simpl; [reflexivity|].
  rewrite (String.eqb_sym f n).
  destruct (String.eqb_spec n f) as [->|Hne]; simpl; [reflexivity | exact IH].
Qed.

Lemma usedRam_fold (ns : NS) (names : list string)
  (procs : list ProcessInfo) :
  forall acc : Q,
    fold_left
      (fun usedRam scriptData =>
         let scriptRam :=
           match
             lookup (filename scriptData)
               (map (fun scriptName => (scriptName, getScriptRam ns scriptName))
                  names)
           with
           | Some r => r
           | None => 0
           end in
         usedRam + scriptRam * threads scriptData)
      procs acc
    == acc
       + total
           (map (fun p => getScriptRam ns (filename p) * threads p)
              (filter (fun p => existsb (String.eqb (filename p)) names)
                 procs)).
Proof.
  induction procs as [|p procs IH]; intros acc; simpl.
  - unfold total. simpl. ring.
  - rewrite IH. rewrite lookup_ramMap.
    destruct (existsb (String.eqb (filename p)) names); simpl.
    + unfold total. simpl. ring.
    + ring.
Qed.

Lemma filter_none {A : Type} (f : A -> bool) (l : list A) :
  (forall x, In x l -> f x = false) -> filter f l = [].
Proof.
  induction l as [|x l IH]; intros Hnone; simpl; [reflexivity|].
  rewrite (Hnone x) by (left; reflexivity).
  apply IH. intros y Hy. apply Hnone. right. exact Hy.
Qed.

(** X9.  The RAM the batcher uses on a server is the RAM of the processes of
    its three thread scripts (Grow.js, Weaken.js, Hack.js), script RAM times
    threads; the processes of any other script count for nothing, and a
    server that runs none of the three uses 0. *)
Theorem getServerHsbUsedRam_counts_wgh (ns : NS) (server : string) :
  let wgh := fun p => existsb (String.eqb (filename p)) wghScripts in
  getServerHsbUsedRam ns server
  == total
       (map (fun p => getScriptRam ns (filename p) * threads p)
          (filter wgh (ps ns server)))
  /\ ((forall p, In p (ps ns server) -> wgh p = false) ->
      getServerHsbUsedRam ns server == 0).
Proof.
  intros wgh.
  assert (Hsum : getServerHsbUsedRam ns server
                 == total
                      (map (fun p => getScriptRam ns (filename p) * threads p)
                         (filter wgh (ps ns server)))).
  { unfold wgh, getServerHsbUsedRam. rewrite (usedRam_fold ns wghScripts).
    apply Qplus_0_l. }
  split; [exact Hsum|].
  intros Hnone. rewrite Hsum.
  rewrite (filter_none wgh (ps ns server) Hnone). reflexivity.
Qed.

Lemma lookup_in_keys {A : Type} (k : string) (v : A) (m : list (string * A)) :
  lookup k m = Some v -> In k (map fst m).
Proof.
  induction m as [|[k' v'] m IH]; simpl; [discriminate|].
  destruct (String.eqb_spec k' k) as [->|Hne]; auto.
Qed.

Lemma lookup_fold_define {A : Type} (init : string -> A)
  (servers : list string) :
  forall (acc : list (string * A)) (t : string),
    (In t servers ->
     lookup t (fold_left (fun m x => define x (init x) m) servers acc)
     = Some (init t))
    /\ (~ In t servers ->
        lookup t (fold_left (fun m x => define x (init x) m) servers acc)
        = lookup t acc).
Proof.
  induction servers as [|x servers IH]; intros acc t; simpl.
  - split; [contradiction | reflexivity].
  - destruct (IH (define x (init x) acc) t) as [IHin IHout]. split.
    + intros [Hx | Hin].
      * subst x. destruct (in_dec string_dec t servers) as [Hin|Hout];
          [apply IHin; exact Hin|].
        rewrite (IHout Hout). apply HsbTargeterFacts.lookup_define_same.
      * apply IHin. exact Hin.
    + intros Hout. rewrite IHout by tauto.
      apply HsbTargeterFacts.lookup_define_other. intros Heq. apply Hout.
      left. symmetry. exact Heq.
Qed.

(** X10.  [getTargetsData] holds one record for every server of [getServers]
    and for nothing else.  The record of a server starts with the execution
    time now, the fix status 0 (a deadline that is already due), the optimal
    money batch, and the security and the money of the server as the
    baseline. *)
Theorem getTargetsData_lookup (E : Env) (ns : NS) (target : string) :
  (In target (getServers E ns) ->
   lookup target (getTargetsData E ns)
   = Some
       (mkTargetData (now ns) (Deadline 0) (getOptimalMoneyBatch E ns target)
          (getServerSecurityLevel ns target)
          (getServerMoneyAvailable ns target)))
  /\ (~ In target (getServers E ns) ->
      lookup target (getTargetsData E ns) = None)
  /\ (In target (map fst (getTargetsData E ns)) <->
      In target (getServers E ns)).
Proof.
  unfold getTargetsData.
  destruct (lookup_fold_define
              (fun t =>
                 mkTargetData (now ns) (Deadline 0)
                   (getOptimalMoneyBatch E ns t)
                   (getServerSecurityLevel ns t)
                   (getServerMoneyAvailable ns t))
              (getServers E ns) [] target) as [Hin Hout].
  split; [exact Hin|]. split; [exact Hout|]. split.
  - intros Hkey. destruct (in_dec string_dec target (getServers E ns))
      as [H|H]; [exact H|].
    apply HsbTargeterFacts.lookup_of_key in Hkey. destruct Hkey as [v Hv].
    rewrite (Hout H) in Hv. discriminate.
  - intros H. eapply lookup_in_keys. apply Hin. exact H.
Qed.

Lemma insertInfo_filter (q : Q) (a : string * Q) (l : list (string * Q)) :
  filter (fun x => Qeq_bool (snd x) q) (insertInfo a l)
  = filter (fun x => Qeq_bool (snd x) q) (a :: l).
Proof.
  induction l as [|b l IH]; [reflexivity|].
  simpl insertInfo.
  destruct (Qle_bool (snd b - snd a) 0) eqn:Ecmp; [reflexivity|].
  assert (Hlt : snd a < snd b).
  { apply Qnot_le_lt. intros Hle.
    assert (Hf : Qle_bool (snd b - snd a) 0 = true)
      by (apply Qle_bool_iff; lra).
    congruence. }
  change (filter (fun x => Qeq_bool (snd x) q) (b :: insertInfo a l))
    with (if Qeq_bool (snd b) q
          then b :: filter (fun x => Qeq_bool (snd x) q) (insertInfo a l)
          else filter (fun x => Qeq_bool (snd x) q) (insertInfo a l)).
  rewrite IH. simpl.
  destruct (Qeq_bool (snd a) q) eqn:Ea, (Qeq_bool (snd b) q) eqn:Eb;
    try reflexivity.
  apply Qeq_bool_iff in Ea. apply Qeq_bool_iff in Eb. exfalso. lra.
Qed.

(** X11.  The sort of [getTargetPriority] is stable: the targets that share a
    yield per RAM come out in the order in which [targetsData] lists them. *)
Theorem sortInfo_stable (q : Q) (targetInfo : list (string * Q)) :
  filter (fun x => Qeq_bool (snd x) q) (sortInfo targetInfo)
  = filter (fun x => Qeq_bool (snd x) q) targetInfo.
Proof.
  induction targetInfo as [|a l IH]; [reflexivity|].
  simpl sortInfo. rewrite insertInfo_filter. simpl. rewrite IH. reflexivity.
Qed.

Lemma budgetAfter_total (E : Env) (ns : NS)
  (tds : list (string * TargetData)) (funded : list string) :
  forall budget : Q,
    budgetAfter E ns tds funded budget
    == budget - total (map (footprint E ns tds) funded).
Proof.
  unfold budgetAfter, total.
  induction funded as [|t funded IH]; intros budget; simpl.
  - ring.
  - rewrite IH. ring.
Qed.

Lemma allFit_total (E : Env) (ns : NS) (tds : list (string * TargetData))
  (funded : list string) :
  forall budget : Q,
    0 <= budget ->
    allFit E ns tds funded budget ->
    total (map (footprint E ns tds) funded) <= budget.
Proof.
  unfold total.
  induction funded as [|t funded IH]; intros budget Hpos; simpl.
  - intros _. exact Hpos.
  - intros [Hfit Hrest].
    assert (Hleft : 0 <= budget - footprint E ns tds t) by lra.
    pose proof (IH _ Hleft Hrest). lra.
Qed.

Lemma getTargetPriority_cases (E : Env) (ns : NS)
  (tds : list (string * TargetData)) :
  let total := getAvailableHsbRam E ns in
  (exists pre t,
      getTargetPriority E ns tds
      = Done (pre ++ [t], (Some t, budgetAfter E ns tds pre total))
      /\ budgetAfter E ns tds pre total < footprint E ns tds t
      /\ allFit E ns tds pre total)
  \/ (exists kept,
         getTargetPriority E ns tds = Done (kept, (None, 0))
         /\ allFit E ns tds kept total).
Proof.
  intros total0. unfold getTargetPriority.
  destruct (HsbTargeterFacts.walkTargets_spec E ns tds
              (map fst (sortInfo (targetInfoOf E ns tds))) [] total0)
    as [(pre & t & post & _ & Hwalk & Hover & Hfit) | [Hwalk Hfit]].
  - intros t Ht. rewrite <- (HsbTargeterFacts.targetInfoOf_keys E ns tds).
    eapply Permutation_in; [|exact Ht].
    apply Permutation_map. apply HsbTargeterFacts.sortInfo_perm.
  - left. exists pre, t. auto.
  - right. eexists. split; [exact Hwalk | exact Hfit].
Qed.

(** X12.  [getTargetPriority] never hands out more than there is.  With
    available RAM that is not negative, the footprints of the targets of the
    priority list that are funded in full (all of them but the sub shotgun
    target) sum to at most the available RAM; the ceiling of the sub shotgun
    target is what they leave, not negative and less than its own footprint;
    without a sub shotgun target the ceiling is 0. *)
Theorem getTargetPriority_within_capacity (E : Env) (ns : NS)
  (tds : list (string * TargetData)) (targetPriority : list string)
  (overflow : option string) (ceiling : Q) :
  0 <= getAvailableHsbRam E ns ->
  getTargetPriority E ns tds = Done (targetPriority, (overflow, ceiling)) ->
  let funded :=
    match overflow with
    | Some _ => removelast targetPriority
    | None => targetPriority
    end in
  total (map (footprint E ns tds) funded) <= getAvailableHsbRam E ns
  /\ 0 <= ceiling
  /\ (overflow = None -> ceiling = 0)
  /\ (forall t,
         overflow = Some t ->
         targetPriority = funded ++ [t]
         /\ total (map (footprint E ns tds) funded) + ceiling
            == getAvailableHsbRam E ns
         /\ ceiling < footprint E ns tds t).
Proof.
  intros Hpos Hrun.
  destruct (getTargetPriority_cases E ns tds)
    as [(pre & t & Hcase & Hover & Hfit) | (kept & Hcase & Hfit)];
    rewrite Hcase in Hrun; injection Hrun as <- <- <-; cbv zeta.
  - rewrite removelast_last.
    pose proof (allFit_total E ns tds pre _ Hpos Hfit) as Hsum.
    pose proof (budgetAfter_total E ns tds pre (getAvailableHsbRam E ns))
      as Hleft.
    split; [exact Hsum|]. split; [lra|]. split; [discriminate|].
    intros t' Ht'. injection Ht' as <-.
    split; [reflexivity|]. split; [lra | exact Hover].
  - split; [apply (allFit_total E ns tds _ _ Hpos Hfit)|].
    split; [apply Qle_refl|]. split; [reflexivity | discriminate].
Qed.

Lemma getTargetPriority_within_capacity_witness :
  total
    (map
       (footprint HsbExample.env HsbExample.ns0
          (getTargetsData HsbExample.env HsbExample.ns0))
       ["n00dles"%string])
  <= getAvailableHsbRam HsbExample.env HsbExample.ns0.
Proof.
  refine (proj1
            (getTargetPriority_within_capacity HsbExample.env HsbExample.ns0
               (getTargetsData HsbExample.env HsbExample.ns0)
               ["n00dles"; "foodnstuff"]%string (Some "foodnstuff"%string)
               (budgetAfter HsbExample.env HsbExample.ns0
                  (getTargetsData HsbExample.env HsbExample.ns0)
                  ["n00dles"%string]
                  (getAvailableHsbRam HsbExample.env HsbExample.ns0))
               _ _)).
  - vm_compute. discriminate.
  - reflexivity.
Defined.

(** X13.  [targetFixValid] returns true exactly when the security and the
    money the game shows equal the stored baseline; it never returns false. *)
Theorem targetFixValid_true_iff (E : Env) (ns : NS) (target : string)
  (td : TargetData) :
  (targetFixValid E ns target td = Done true <->
   getServerSecurityLevel ns target == baseSecurity td
   /\ getServerMoneyAvailable ns target == baseMoney td)
  /\ targetFixValid E ns target td <> Done false
  /\ targetFixValid E ns target td <> OutOfFuel.
Proof.
  unfold targetFixValid.
  destruct (Qgtb (getServerSecurityLevel ns target) (baseSecurity td)) eqn:E1.
  { apply Qgtb_gt in E1. repeat split; try discriminate.
    intros [H _]. exfalso. lra. }
  destruct (Qltb (getServerSecurityLevel ns target) (baseSecurity td)) eqn:E2.
  { apply Qltb_lt in E2. repeat split; try discriminate.
    intros [H _]. exfalso. lra. }
  destruct (Qgtb (getServerMoneyAvailable ns target) (baseMoney td)) eqn:E3.
  { apply Qgtb_gt in E3. repeat split; try discriminate.
    intros [_ H]. exfalso. lra. }
  destruct (Qltb (getServerMoneyAvailable ns target) (baseMoney td)) eqn:E4.
  { apply Qltb_lt in E4. repeat split; try discriminate.
    intros [_ H]. exfalso. lra. }
  apply Qgtb_le in E1. apply Qltb_ge in E2.
  apply Qgtb_le in E3. apply Qltb_ge in E4.
  repeat split; try discriminate; apply Qle_antisym; assumption.
Qed.

(** X14.  The fix status only moves on: [ensureFixed] leaves it as it is or
    sets it to ["fixing"] or ["fixed"], and never stores a deadline.  Once
    ["fixed"], the target is taken as ready without another look at the game.
    Otherwise the status becomes ["fixed"] exactly when the game shows the
    minimal security and the maximal money, and the baseline is then what the
    game shows; it becomes ["fixing"] from a deadline only with the dispatch
    of the optimal fix batch. *)
Theorem ensureFixed_status_moves_on (E : Env) (target : string)
  (td : TargetData) (s : St) :
  let r := ensureFixed E target td s in
  let td' := snd (fst r) in
  (fixedStatus td = Fixed -> r = (true, td, s))
  /\ (fixedStatus td' = fixedStatus td
      \/ fixedStatus td' = Fixing \/ fixedStatus td' = Fixed)
  /\ (fixedStatus td <> Fixed ->
      (fixedStatus td' = Fixed <-> targetFixed (world s) target = true))
  /\ (fixedStatus td <> Fixed ->
      fixedStatus td' = Fixed ->
      baseSecurity td' = getServerSecurityLevel (world s) target
      /\ baseMoney td' = getServerMoneyAvailable (world s) target)
  /\ (fixedStatus td' = Fixing ->
      fixedStatus td = Fixing
      \/ equal
           (getBestFixBatch E (world s) target (getAvailableHsbRam E (world s)))
           (getOptimalFixBatch E (world s) target) = true).
Proof.
  cbv zeta. unfold ensureFixed.
  destruct (fixedStatus td) as [deadline| |] eqn:Est.
  - destruct (targetFixed (world s) target) eqn:Efixed; simpl.
    { repeat split; auto; try discriminate. }
    destruct (Qgtb deadline (now (world s))); simpl.
    { rewrite ?Est. repeat split; auto; try discriminate. }
    destruct (equal _ _) eqn:Eeq; simpl; rewrite ?Est;
      repeat split; auto; try discriminate.
  - destruct (targetFixed (world s) target) eqn:Efixed; simpl; rewrite ?Est;
      repeat split; auto; try discriminate.
  - rewrite ?Est. simpl. repeat split; auto; try congruence.
Qed.

(** X15.  [ensureFixed] answers false only for a target with a deadline that
    is not at its baseline.  With the deadline still ahead it changes
    nothing; a target that is ["fixing"] and not at its baseline is taken as
    ready and nothing is stored or dispatched.  Whatever the case, either
    nothing is dispatched at all or one fix batch is, for a deadline that is
    due. *)
Theorem ensureFixed_ready_unless_pending (E : Env) (target : string)
  (td : TargetData) (s : St) :
  let r := ensureFixed E target td s in
  (fst (fst r) = false <->
   exists deadline,
     fixedStatus td = Deadline deadline
     /\ targetFixed (world s) target = false)
  /\ (forall deadline,
         fixedStatus td = Deadline deadline ->
         targetFixed (world s) target = false ->
         now (world s) < deadline ->
         r = (false, td, s))
  /\ (fixedStatus td = Fixing ->
      targetFixed (world s) target = false ->
      r = (true, td, s))
  /\ (snd r = s
      \/ exists deadline,
          fixedStatus td = Deadline deadline
          /\ deadline <= now (world s)
          /\ targetFixed (world s) target = false
          /\ snd r
             = startBatch E target
                 (getBestFixBatch E (world s) target
                    (getAvailableHsbRam E (world s)))
                 (execTime td) s).
Proof.
  cbv zeta. unfold ensureFixed.
  destruct (fixedStatus td) as [deadline| |] eqn:Est.
  - destruct (targetFixed (world s) target) eqn:Efixed; simpl.
    { repeat split; auto; try discriminate.
      intros (d & _ & H). discriminate. }
    destruct (Qgtb deadline (now (world s))) eqn:Edue; simpl.
    { repeat split; auto; try discriminate. exists deadline. auto. }
    apply Qgtb_le in Edue.
    split; [split; [exists deadline; auto | reflexivity]|].
    split.
    { intros d Hd _ Hlt. injection Hd as <-. exfalso.
      apply (Qlt_not_le _ _ Hlt Edue). }
    split; [discriminate|].
    right. exists deadline.
    destruct (equal _ _); simpl; repeat split; auto.
  - destruct (targetFixed (world s) target) eqn:Efixed; simpl;
      repeat split; auto; try discriminate;
      intros (d & H & _); discriminate.
  - simpl. repeat split; auto; try discriminate.
    intros (d & H & _). discriminate.
Qed.

(** What [ensureValidExecTime] leaves alone. *)
Lemma validExecTimeTurn_frame (E : Env) (ns : NS) (target : string)
  (td : TargetData) :
  let td' := snd (validExecTimeTurn E ns target td) in
  fixedStatus td' = fixedStatus td
  /\ batch td' = batch td
  /\ baseSecurity td' = baseSecurity td
  /\ baseMoney td' = baseMoney td.
Proof.
  cbv zeta. unfold validExecTimeTurn.
  destruct (Qltb _ _); [repeat split|].
  destruct (_ || _ || _); [repeat split|].
  destruct (Qgtb _ _); repeat split.
Qed.

Lemma validExecTimeTurn_accepts (E : Env) (ns : NS) (target : string)
  (td td' : TargetData) :
  validExecTimeTurn E ns target td = (Some true, td') ->
  td' = td
  /\ firstPossibleExecTime E ns target <= execTime td
  /\ inLowSecHole E (execTime td) = false
  /\ inLowSecHole E (execTime td - minDeltaBatchExec E) = false
  /\ execTime td <= getNextSecHole E (execTime td - minDeltaBatchExec E)
  /\ execTime td - getWeakenTime ns target - minDeltaBatchExec E
     - getNextLowSecEnd E (now ns) <= execMargin E.
Proof.
  unfold validExecTimeTurn. fold (firstPossibleExecTime E ns target).
  destruct (Qltb (execTime td) (firstPossibleExecTime E ns target)) eqn:E1;
    [discriminate|].
  apply Qltb_ge in E1.
  destruct (inLowSecHole E (execTime td)) eqn:E2; [discriminate|].
  destruct (inLowSecHole E (execTime td - minDeltaBatchExec E)) eqn:E3;
    [discriminate|].
  destruct (Qltb (getNextSecHole E (execTime td - minDeltaBatchExec E))
              (execTime td)) eqn:E4; [discriminate|].
  apply Qltb_ge in E4. simpl.
  destruct (Qgtb _ (execMargin E)) eqn:E5; [discriminate|].
  apply Qgtb_le in E5. intros H. injection H as <-. repeat split; auto.
Qed.

Lemma validExecTimeLoop_accepts (E : Env) (ns : NS) (target : string)
  (fuel : nat) :
  forall (td td' : TargetData) (b : bool),
    validExecTimeLoop E fuel ns target td = Done (b, td') ->
    (fixedStatus td' = fixedStatus td
     /\ batch td' = batch td
     /\ baseSecurity td' = baseSecurity td
     /\ baseMoney td' = baseMoney td)
    /\ (b = true ->
        firstPossibleExecTime E ns target <= execTime td'
        /\ inLowSecHole E (execTime td') = false
        /\ inLowSecHole E (execTime td' - minDeltaBatchExec E) = false
        /\ execTime td' <= getNextSecHole E (execTime td' - minDeltaBatchExec E)
        /\ execTime td' - getWeakenTime ns target - minDeltaBatchExec E
           - getNextLowSecEnd E (now ns) <= execMargin E).
Proof.
  induction fuel as [|fuel IH]; intros td td' b Hrun; simpl in Hrun;
    [discriminate|].
  pose proof (validExecTimeTurn_frame E ns target td) as Hframe.
  cbv zeta in Hframe.
  destruct (validExecTimeTurn E ns target td) as [[b0|] td1] eqn:Hturn;
    simpl in Hframe.
  - injection Hrun as <- <-. split; [exact Hframe|].
    intros ->. apply validExecTimeTurn_accepts in Hturn.
    destruct Hturn as (-> & H). exact H.
  - destruct (IH _ _ _ Hrun) as [Hframe' Hacc].
    destruct Hframe as (F1 & F2 & F3 & F4).
    destruct Hframe' as (G1 & G2 & G3 & G4).
    split; [|exact Hacc]. repeat split; congruence.
Qed.

(** X16.  [ensureValidExecTime] touches nothing of the target's record but
    its execution time.  It answers true only from inside a low security
    hole, and then for an execution time that is not before the next hole end
    plus [minDeltaBatchExec] plus the weaken time, that lies in no hole (nor
    does the instant [minDeltaBatchExec] before it, and no hole starts in
    between), and whose first start is at most [execMargin] after the next
    hole end.  Outside a hole it answers false and changes nothing. *)
Theorem ensureValidExecTime_accepts (E : Env) (fuel : nat) (ns : NS)
  (target : string) (td td' : TargetData) (b : bool) :
  ensureValidExecTime E fuel ns target td = Done (b, td') ->
  (fixedStatus td' = fixedStatus td
   /\ batch td' = batch td
   /\ baseSecurity td' = baseSecurity td
   /\ baseMoney td' = baseMoney td)
  /\ (b = true ->
      inLowSecHole E (now ns) = true
      /\ firstPossibleExecTime E ns target <= execTime td'
      /\ inLowSecHole E (execTime td') = false
      /\ inLowSecHole E (execTime td' - minDeltaBatchExec E) = false
      /\ execTime td' <= getNextSecHole E (execTime td' - minDeltaBatchExec E)
      /\ execTime td' - getWeakenTime ns target - minDeltaBatchExec E
         - getNextLowSecEnd E (now ns) <= execMargin E)
  /\ (inLowSecHole E (now ns) = false -> b = false /\ td' = td).
Proof.
  unfold ensureValidExecTime.
  destruct (inLowSecHole E (now ns)) eqn:Ehole; simpl.
  - intros Hrun. apply validExecTimeLoop_accepts in Hrun.
    destruct Hrun as [Hframe Hacc].
    split; [exact Hframe|]. split; [|discriminate].
    intros Hb. split; [reflexivity | apply Hacc; exact Hb].
  - intros Hrun. injection Hrun as <- <-.
    split; [repeat split|]. split; [discriminate | auto].
Qed.

Lemma ensureValidExecTime_accepts_witness :
  ensureValidExecTime HsbExample.env 3 HsbExample.ns0 "n00dles"
    (HsbExample.tdAt 0 (Deadline 0) 10)
  = Done (true, HsbExample.tdAt 2120 (Deadline 0) 10)
  /\ HsbExample.exInLowSecHole 2120 = false
  /\ HsbExample.exInLowSecHole (2120 - 20) = false.
Proof.
  assert (Hrun : ensureValidExecTime HsbExample.env 3 HsbExample.ns0 "n00dles"
                   (HsbExample.tdAt 0 (Deadline 0) 10)
                 = Done (true, HsbExample.tdAt 2120 (Deadline 0) 10))
    by reflexivity.
  destruct (ensureValidExecTime_accepts HsbExample.env 3 HsbExample.ns0
              "n00dles" (HsbExample.tdAt 0 (Deadline 0) 10)
              (HsbExample.tdAt 2120 (Deadline 0) 10) true Hrun)
    as (_ & Hacc & _).
  destruct (Hacc eq_refl) as (_ & _ & H1 & H2 & _).
  split; [exact Hrun|]. split; [exact H1 | exact H2].
Defined.

Section Returns.

Variable E : Env.
Hypothesis delta_nonneg : 0 <= minDeltaBatchExec E.
Hypothesis next_end_later : forall t : Q, t <= getNextLowSecEnd E t.
Hypothesis hole_ends_clear :
  forall t : Q,
    let e := getNextLowSecEnd E t + minDeltaBatchExec E in
    inLowSecHole E e = false
    /\ inLowSecHole E (e - minDeltaBatchExec E) = false
    /\ e <= getNextSecHole E (e - minDeltaBatchExec E).

Lemma validExecTimeLoop_settled (ns : NS) (target : string)
  (td : TargetData) (fuel : nat) :
  firstPossibleExecTime E ns target <= execTime td ->
  inLowSecHole E (execTime td) = false ->
  inLowSecHole E (execTime td - minDeltaBatchExec E) = false ->
  execTime td <= getNextSecHole E (execTime td - minDeltaBatchExec E) ->
  exists b, validExecTimeLoop E (S fuel) ns target td = Done (b, td).
Proof.
  intros Hfirst H1 H2 H3. simpl. unfold validExecTimeTurn.
  fold (firstPossibleExecTime E ns target).
  apply Qltb_ge in Hfirst. apply Qltb_ge in H3.
  rewrite Hfirst, H1, H2, H3. simpl.
  destruct (Qgtb _ (execMargin E)); eexists; reflexivity.
Qed.

Lemma validExecTimeLoop_late_enough (ns : NS) (target : string)
  (td : TargetData) (fuel : nat) :
  firstPossibleExecTime E ns target <= execTime td ->
  exists b td', validExecTimeLoop E (S (S fuel)) ns target td = Done (b, td').
Proof.
  intros Hfirst.
  destruct (inLowSecHole E (execTime td)
            || inLowSecHole E (execTime td - minDeltaBatchExec E)
            || Qltb (getNextSecHole E (execTime td - minDeltaBatchExec E))
                 (execTime td)) eqn:Ecollide.
  - pose proof (hole_ends_clear (execTime td)) as Hclear. cbv zeta in Hclear.
    destruct Hclear as (C1 & C2 & C3).
    pose proof (next_end_later (execTime td)) as Hnext.
    destruct (validExecTimeLoop_settled ns target
                (withExecTime
                   (getNextLowSecEnd E (execTime td) + minDeltaBatchExec E) td)
                fuel) as [b Hb]; simpl; auto; [lra|].
    exists b. eexists.
    change (validExecTimeLoop E (S (S fuel)) ns target td)
      with (match validExecTimeTurn E ns target td with
            | (Some b0, td1) => Done (b0, td1)
            | (None, td1) => validExecTimeLoop E (S fuel) ns target td1
            end).
    unfold validExecTimeTurn at 1. fold (firstPossibleExecTime E ns target).
    apply Qltb_ge in Hfirst. rewrite Hfirst, Ecollide. exact Hb.
  - apply orb_false_iff in Ecollide. destruct Ecollide as [Eor E3].
    apply orb_false_iff in Eor. destruct Eor as [E1 E2].
    apply Qltb_ge in E3.
    destruct (validExecTimeLoop_settled ns target td (S fuel) Hfirst E1 E2 E3)
      as [b Hb].
    exists b, td. exact Hb.
Qed.

(** X17.  The loop of [ensureValidExecTime] ends within three turns, provided
    [minDeltaBatchExec] is not negative, [getNextLowSecEnd] answers with an
    instant at or after the one it is asked about, and [minDeltaBatchExec]
    after a hole end there is no hole yet: not at that instant, not at the
    hole end itself, and none starting in between. *)
Theorem ensureValidExecTime_returns (fuel : nat) (ns : NS) (target : string)
  (td : TargetData) :
  (3 <= fuel)%nat ->
  exists b td', ensureValidExecTime E fuel ns target td = Done (b, td').
Proof.
  intros Hfuel. unfold ensureValidExecTime.
  destruct (inLowSecHole E (now ns)); simpl; [|eauto].
  destruct fuel as [|[|[|fuel]]]; try lia.
  destruct (Qltb (execTime td) (firstPossibleExecTime E ns target)) eqn:Elate.
  - destruct (validExecTimeLoop_late_enough ns target
                (withExecTime (firstPossibleExecTime E ns target) td) fuel)
      as (b & td' & Hrun); [apply Qle_refl|].
    exists b, td'.
    change (validExecTimeLoop E (S (S (S fuel))) ns target td)
      with (match validExecTimeTurn E ns target td with
            | (Some b0, td1) => Done (b0, td1)
            | (None, td1) => validExecTimeLoop E (S (S fuel)) ns target td1
            end).
    unfold validExecTimeTurn at 1. fold (firstPossibleExecTime E ns target).
    rewrite Elate. exact Hrun.
  - apply Qltb_ge in Elate.
    apply (validExecTimeLoop_late_enough ns target td (S fuel) Elate).
Qed.

End Returns.

Lemma Qfloor_unique (z : Z) (x : Q) :
  inject_Z z <= x -> x < inject_Z (z + 1) -> Qfloor x = z.
Proof.
  intros Hlo Hhi.
  pose proof (Qfloor_le x) as H1. pose proof (Qlt_floor x) as H2.
  assert (Ha : (z < Qfloor x + 1)%Z)
    by (rewrite Zlt_Qlt; apply Qle_lt_trans with x; assumption).
  assert (Hb : (Qfloor x < z + 1)%Z)
    by (rewrite Zlt_Qlt; apply Qle_lt_trans with x; assumption).
  lia.
Qed.

Lemma Qceiling_unique (z : Z) (x : Q) :
  inject_Z (z - 1) < x -> x <= inject_Z z -> Qceiling x = z.
Proof.
  intros Hlo Hhi.
  pose proof (Qle_ceiling x) as H1. pose proof (Qceiling_lt x) as H2.
  assert (Ha : (z - 1 < Qceiling x)%Z)
    by (rewrite Zlt_Qlt; apply Qlt_le_trans with x; assumption).
  assert (Hb : (Qceiling x - 1 < z)%Z)
    by (rewrite Zlt_Qlt; apply Qlt_le_trans with x; assumption).
  lia.
Qed.

(** In the example schedule a hole ends 900 ms before the next one starts. *)
Lemma exHoleEndsClear (t : Q) :
  let e := HsbExample.exGetNextLowSecEnd t + 20 in
  HsbExample.exInLowSecHole e = false
  /\ HsbExample.exInLowSecHole (e - 20) = false
  /\ e <= HsbExample.exGetNextSecHole (e - 20).
Proof.
  cbv zeta.
  unfold HsbExample.exGetNextLowSecEnd, HsbExample.exInLowSecHole,
    HsbExample.exGetNextSecHole, HsbExample.holePeriod, HsbExample.holeTime.
  set (c := Qceiling ((t - 100) / 1000)).
  assert (Hsucc : inject_Z (c + 1) == inject_Z c + 1)
    by (rewrite inject_Z_plus; reflexivity).
  assert (Hpred : inject_Z (c + 1 - 1) == inject_Z c)
    by (replace (c + 1 - 1)%Z with c by lia; reflexivity).
  assert (Hq1 : (1000 * inject_Z c + 100 + 20) / 1000 == inject_Z c + (3 # 25))
    by field.
  assert (Hq2 : (1000 * inject_Z c + 100 + 20 - 20) / 1000
                == inject_Z c + (1 # 10)) by field.
  assert (Hf1 : Qfloor ((1000 * inject_Z c + 100 + 20) / 1000) = c)
    by (apply Qfloor_unique; rewrite Hq1, ?Hsucc; lra).
  assert (Hf2 : Qfloor ((1000 * inject_Z c + 100 + 20 - 20) / 1000) = c)
    by (apply Qfloor_unique; rewrite Hq2, ?Hsucc; lra).
  assert (Hc : Qceiling ((1000 * inject_Z c + 100 + 20 - 20) / 1000)
               = (c + 1)%Z)
    by (apply Qceiling_unique; rewrite Hq2, ?Hsucc, ?Hpred; lra).
  rewrite Hf1, Hf2, Hc. split; [|split].
  - apply Qltb_ge. lra.
  - apply Qltb_ge. lra.
  - rewrite Hsucc. lra.
Qed.

Lemma ensureValidExecTime_returns_witness :
  exists b td',
    ensureValidExecTime HsbExample.env 3 HsbExample.ns0 "n00dles"
      (HsbExample.tdAt 0 (Deadline 0) 10)
    = Done (b, td').
Proof.
  apply (ensureValidExecTime_returns HsbExample.env).
  - unfold Qle; simpl; lia.
  - exact HsbTargeterFacts.exGetNextLowSecEnd_later.
  - exact exHoleEndsClear.
  - lia.
Defined.

(** X18.  With a positive [execMargin], [getMaxBatchesForTime] is the number
    of instants, [execMargin] apart from the first execution time on, that
    come before the next low security hole: the last of them is before the
    hole and one more would not be.  The test for a first execution time
    exactly [execMargin] before the hole gives what the formula gives.  The
    count is at least 1 exactly when the first execution time is before the
    hole. *)
Theorem getMaxBatchesForTime_counts (E : Env) (firstBatchExec : Q) :
  0 < execMargin E ->
  let lastAllowedExecTime := getNextSecHole E firstBatchExec in
  let n := getMaxBatchesForTime E firstBatchExec in
  n = Math_ceil ((lastAllowedExecTime - firstBatchExec) / execMargin E)
  /\ firstBatchExec + (inject_Z n - 1) * execMargin E < lastAllowedExecTime
  /\ lastAllowedExecTime <= firstBatchExec + inject_Z n * execMargin E
  /\ ((1 <= n)%Z <-> firstBatchExec < lastAllowedExecTime).
Proof.
  intros Hm last n.
  assert (Hne : ~ execMargin E == 0) by (intros H0; rewrite H0 in Hm; lra).
  assert (Hn : n = Math_ceil ((last - firstBatchExec) / execMargin E)).
  { unfold n, getMaxBatchesForTime. fold last.
    destruct (Qeq_bool firstBatchExec (last - execMargin E)) eqn:Eq;
      [|reflexivity].
    apply Qeq_bool_iff in Eq. symmetry. apply Qceiling_unique.
    - apply Qlt_shift_div_l; [exact Hm|].
      change (inject_Z (1 - 1)) with 0. lra.
    - apply Qle_shift_div_r; [exact Hm|].
      change (inject_Z 1) with 1. lra. }
  split; [exact Hn|].
  set (x := (last - firstBatchExec) / execMargin E) in *.
  assert (Hx : x * execMargin E == last - firstBatchExec)
    by (unfold x; field; exact Hne).
  pose proof (Qle_ceiling x) as Hhi. pose proof (Qceiling_lt x) as Hlo.
  unfold Math_ceil in Hn. rewrite <- Hn in Hhi, Hlo.
  assert (Hpred : inject_Z (n - 1) == inject_Z n - 1).
  { unfold Zminus. rewrite inject_Z_plus. reflexivity. }
  rewrite Hpred in Hlo.
  assert (H1 : (inject_Z n - 1) * execMargin E < x * execMargin E)
    by (apply Qmult_lt_compat_r; assumption).
  assert (H2 : x * execMargin E <= inject_Z n * execMargin E)
    by (apply Qmult_le_compat_r; [assumption | lra]).
  split; [lra|]. split; [lra|]. split.
  - intros Hone.
    assert (Hq : inject_Z 1 <= inject_Z n) by (rewrite <- Zle_Qle; exact Hone).
    change (inject_Z 1) with 1 in Hq.
    assert (H3 : 0 <= (inject_Z n - 1) * execMargin E)
      by (apply Qmult_le_0_compat; lra).
    lra.
  - intros Hlt.
    assert (Hpos : 0 < inject_Z n).
    { destruct (Qlt_le_dec 0 (inject_Z n)) as [H|H]; [exact H|].
      exfalso.
      assert (H3 : inject_Z n * execMargin E <= 0 * execMargin E)
        by (apply Qmult_le_compat_r; [exact H | lra]).
      lra. }
    assert (Hz : (0 < n)%Z) by (rewrite Zlt_Qlt; exact Hpos).
    lia.
Qed.

Lemma getMaxBatchesForTime_counts_witness :
  getMaxBatchesForTime HsbExample.env 2120 = 5%Z
  /\ 2120 + (inject_Z 5 - 1) * 200 < 3000
  /\ 3000 <= 2120 + inject_Z 5 * 200.
Proof.
  destruct (getMaxBatchesForTime_counts HsbExample.env 2120 eq_refl)
    as (Hn & Hlo & Hhi & _).
  split; [reflexivity|]. split; [exact Hlo | exact Hhi].
Defined.

Lemma fullShotgunBatches_trace (E : Env) (target : string) (n : nat) :
  forall (td : TargetData) (s : St),
    let r := fullShotgunBatches E n target td s in
    trace (snd r)
    = trace s
      ++ map (EvStartBatch target (batch td))
           (batchTimes n (execTime td) (minDeltaBatchExec E))
    /\ fixedStatus (fst r) = fixedStatus td
    /\ batch (fst r) = batch td
    /\ baseSecurity (fst r) = baseSecurity td
    /\ baseMoney (fst r) = baseMoney td.
Proof.
  induction n as [|n IH]; intros td s; simpl.
  - rewrite app_nil_r. repeat split.
  - destruct (IH (withExecTime (execTime td + minDeltaBatchExec E) td)
                (startBatch E target (batch td) (execTime td) s))
      as (Htr & H1 & H2 & H3 & H4).
    simpl in *. rewrite Htr, <- app_assoc. repeat split; assumption.
Qed.

Lemma count_within_ram (a : Z) (avail ram : Q) :
  0 < ram -> 0 <= avail ->
  inject_Z (Z.of_nat (Z.to_nat (Z.min a (Math_floor (avail / ram))))) * ram
  <= avail.
Proof.
  intros Hram Havail.
  destruct (Z.le_gt_cases 0 (Z.min a (Math_floor (avail / ram)))) as [Hpos|Hneg].
  - rewrite Z2Nat.id by exact Hpos. apply floor_share_le. exact Hram.
  - replace (Z.to_nat (Z.min a (Math_floor (avail / ram)))) with 0%nat by lia.
    change (inject_Z (Z.of_nat 0)) with 0. lra.
Qed.

(** X19.  For a batch whose RAM is not 0 (and an [execMargin] that is not
    0), and in exact arithmetic: [scheduleFullShotgun] dispatches the batch
    of the target [min(getMaxBatchesForTime, floor(available RAM / batch
    RAM))] times (not at all when that is 0 or less), at execution times [minDeltaBatchExec]
    apart from the stored one on, and touches nothing of the record but the
    execution time.  With a batch that costs RAM and available RAM that is
    not negative, the batches together cost no more than the RAM that was
    available when it started. *)
Theorem scheduleFullShotgun_dispatches (E : Env) (target : string)
  (td : TargetData) (s : St) :
  let availableRam := getAvailableHsbRam E (world s) in
  let ram := ramUsage (R E) (batch td) in
  let n :=
    Z.to_nat
      (Z.min (getMaxBatchesForTime E (execTime td))
         (Math_floor (availableRam / ram))) in
  let r := scheduleFullShotgun E target td s in
  ~ execMargin E == 0 ->
  ~ ram == 0 ->
  trace (snd r)
  = trace s
    ++ map (EvStartBatch target (batch td))
         (batchTimes n (execTime td) (minDeltaBatchExec E))
  /\ (fixedStatus (fst r) = fixedStatus td
      /\ batch (fst r) = batch td
      /\ baseSecurity (fst r) = baseSecurity td
      /\ baseMoney (fst r) = baseMoney td)
  /\ (n = 0%nat -> r = (td, s))
  /\ (0 < ram -> 0 <= availableRam ->
      inject_Z (Z.of_nat n) * ram <= availableRam).
Proof.
  cbv zeta. intros _ _. unfold scheduleFullShotgun.
  split; [apply fullShotgunBatches_trace|].
  split; [apply fullShotgunBatches_trace|].
  split; [intros ->; reflexivity|].
  apply count_within_ram.
Qed.

Lemma scheduleFullShotgun_dispatches_witness :
  trace
    (snd (scheduleFullShotgun HsbExample.env "n00dles"
            (HsbExample.tdAt 2120 Fixed 10) HsbExample.s0))
  = map (EvStartBatch "n00dles" (mkThreads 1 2 1))
      (batchTimes 5 2120 20)
  /\ inject_Z 5 * (695 # 100)
     <= getAvailableHsbRam HsbExample.env HsbExample.ns0.
Proof.
  pose proof (scheduleFullShotgun_dispatches HsbExample.env "n00dles"
                (HsbExample.tdAt 2120 Fixed 10) HsbExample.s0) as H.
  cbv zeta in H.
  assert (H1 : ~ execMargin HsbExample.env == 0) by discriminate.
  assert (H2 : ~ ramUsage (R HsbExample.env)
                   (batch (HsbExample.tdAt 2120 Fixed 10)) == 0)
    by discriminate.
  destruct (H H1 H2) as (Htrace & _ & _ & Hram).
  split; [exact Htrace|].
  apply Hram; vm_compute; congruence.
Defined.

Lemma usedRamFrom_pending (E : Env) (ns : NS) (td : TargetData)
  (rest : list Q) :
  forall (len i : nat) (used : Q),
    len = (i + List.length rest)%nat ->
    Forall (fun t => now ns <= t) rest ->
    let m := inject_Z (Z.of_nat (List.length rest)) in
    subShotgunUsedRamFrom E ns td len i rest used
    == used + ramUsage (R E) (batch td) * (m * (m + 1) / 2).
Proof.
  induction rest as [|t rest IH]; intros len i used Hlen Hall; cbv zeta.
  - simpl. field.
  - inversion Hall as [|? ? Ht Hrest]; subst.
    cbn [subShotgunUsedRamFrom].
    assert (Hge : Qgeb t (now ns) = true) by (apply Qle_bool_iff; exact Ht).
    rewrite Hge.
    rewrite (IH (i + List.length (t :: rest))%nat (S i) _
               ltac:(simpl; lia) Hrest).
    replace (i + List.length (t :: rest) - i)%nat
      with (S (List.length rest)) by (simpl; lia).
    cbn [List.length]. rewrite !Nat2Z.inj_succ. unfold Z.succ.
    rewrite !inject_Z_plus. change (inject_Z 1) with 1. field.
Qed.

Lemma usedRamFrom_done (E : Env) (ns : NS) (td : TargetData)
  (rest : list Q) :
  forall (len i : nat) (used : Q),
    Forall (fun t => t < now ns) rest ->
    subShotgunUsedRamFrom E ns td len i rest used = used.
Proof.
  induction rest as [|t rest IH]; intros len i used Hall; simpl;
    [reflexivity|].
  inversion Hall as [|? ? Ht Hrest]; subst.
  assert (Hge : Qgeb t (now ns) = false).
  { unfold Qgeb. destruct (Qle_bool (now ns) t) eqn:Ele; [|reflexivity].
    apply Qle_bool_iff in Ele. exfalso. apply (Qlt_not_le _ _ Ht Ele). }
  rewrite Hge. apply IH. exact Hrest.
Qed.

(** X20.  The loop of [getSubShotgunAvailableRam] charges the RAM of a batch
    once for every batch at or after it on the list, for each batch that is
    still to execute: with [k] batches recorded and all of them ahead, the
    RAM counted as used is [k (k + 1) / 2] times the RAM of a batch, not [k]
    times.  With all of them in the past nothing is counted. *)
Theorem subShotgunUsedRam_quadratic (E : Env) (ns : NS) (td : TargetData)
  (times : list Q) :
  let k := inject_Z (Z.of_nat (List.length times)) in
  (Forall (fun t => now ns <= t) times ->
   subShotgunUsedRamFrom E ns td (List.length times) 0 times 0
   == ramUsage (R E) (batch td) * (k * (k + 1) / 2))
  /\ (Forall (fun t => t < now ns) times ->
      subShotgunUsedRamFrom E ns td (List.length times) 0 times 0 = 0).
Proof.
  cbv zeta. split.
  - intros Hall.
    rewrite (usedRamFrom_pending E ns td times (List.length times) 0 0
               eq_refl Hall).
    ring.
  - intros Hall. apply usedRamFrom_done. exact Hall.
Qed.

(** Three batches ahead of time 50 count as six. *)
Example subShotgunUsedRam_three_batches :
  subShotgunUsedRamFrom HsbExample.env HsbExample.ns0
    (HsbExample.tdAt 2180 Fixed 10) 3 0 [2120; 2140; 2160] 0
  == 6 * ramUsage SetupExample.ram (mkThreads 1 2 1).
Proof. reflexivity. Qed.

Lemma subShotgunBatches_trace (E : Env) (target : string) (n : nat) :
  forall (td : TargetData) (times : list Q) (s : St),
    let r := subShotgunBatches E n target td times s in
    snd (fst r)
    = times ++ batchTimes n (execTime td) (minDeltaBatchExec E)
    /\ trace (snd r)
       = trace s
         ++ map (EvStartBatch target (batch td))
              (batchTimes n (execTime td) (minDeltaBatchExec E))
    /\ fixedStatus (fst (fst r)) = fixedStatus td
    /\ batch (fst (fst r)) = batch td
    /\ baseSecurity (fst (fst r)) = baseSecurity td
    /\ baseMoney (fst (fst r)) = baseMoney td.
Proof.
  induction n as [|n IH]; intros td times s; simpl.
  - rewrite !app_nil_r. repeat split.
  - destruct (IH (withExecTime (execTime td + minDeltaBatchExec E) td)
                (times ++ [execTime td])
                (startBatch E target (batch td) (execTime td) s))
      as (Htimes & Htr & H1 & H2 & H3 & H4).
    simpl in *. rewrite Htimes, Htr, <- !app_assoc. repeat split; assumption.
Qed.

(** X21.  For a batch whose RAM is not 0 (and an [execMargin] that is not
    0), and in exact arithmetic: [scheduleSubShotgun] dispatches the batch
    of the target [min(floor(available RAM / batch RAM),
    getMaxBatchesForTime)] times, at execution times [minDeltaBatchExec]
    apart, and appends exactly those
    times, in order, to the list of execution times it is given.  After them
    it dispatches at most one more batch, the remainder batch, and then
    records it with its execution time as the new [subBatchData]; otherwise
    [subBatchData] is as it was.  Nothing of the record changes but the
    execution time. *)
Theorem scheduleSubShotgun_records (E : Env) (target : string)
  (td : TargetData) (times : list Q) (maxRam : Q)
  (sbd : option Threads * Q) (s : St) :
  let availableRam :=
    getSubShotgunAvailableRam E (world s) td times maxRam sbd in
  let n :=
    Z.to_nat
      (Z.min (Math_floor (availableRam / ramUsage (R E) (batch td)))
         (getMaxBatchesForTime E (execTime td))) in
  let fullTimes := batchTimes n (execTime td) (minDeltaBatchExec E) in
  let r := scheduleSubShotgun E target td times maxRam sbd s in
  ~ execMargin E == 0 ->
  ~ ramUsage (R E) (batch td) == 0 ->
  snd (fst (fst r)) = times ++ fullTimes
  /\ (fixedStatus (snd (fst r)) = fixedStatus td
      /\ batch (snd (fst r)) = batch td
      /\ baseSecurity (snd (fst r)) = baseSecurity td
      /\ baseMoney (snd (fst r)) = baseMoney td)
  /\ ((fst (fst (fst r)) = sbd
       /\ trace (snd r)
          = trace s ++ map (EvStartBatch target (batch td)) fullTimes)
      \/ (exists subBatch t,
             fst (fst (fst r)) = (Some subBatch, t)
             /\ trace (snd r)
                = trace s
                  ++ map (EvStartBatch target (batch td)) fullTimes
                  ++ [EvStartBatch target subBatch t]
             /\ (1 <= getMaxBatchesForTime E t)%Z)).
Proof.
  cbv zeta. intros _ _. unfold scheduleSubShotgun.
  match goal with
  | |- context [subShotgunBatches E ?n target td times s] =>
      pose proof (subShotgunBatches_trace E target n td times s) as Hloop;
      cbv zeta in Hloop;
      destruct (subShotgunBatches E n target td times s) as [[td1 times1] s1]
  end.
  simpl in Hloop. destruct Hloop as (Htimes & Htr & H1 & H2 & H3 & H4).
  destruct (1 <=? getMaxBatchesForTime E (execTime td1))%Z eqn:Eroom; simpl.
  2:{ repeat split; auto. }
  destruct (Qltb (snd sbd) (now (world s1))); simpl.
  2:{ repeat split; auto. }
  split; [exact Htimes|]. split; [repeat split; assumption|].
  right. do 2 eexists. split; [reflexivity|]. split.
  - rewrite Htr, <- app_assoc. reflexivity.
  - apply Z.leb_le. exact Eroom.
Qed.

(** With a ceiling of 100 GB, which pay fourteen batches, and room for five
    before the next hole, five execution times are recorded. *)
Lemma scheduleSubShotgun_records_witness :
  snd
    (fst
       (fst
          (scheduleSubShotgun HsbExample.env "n00dles"
             (HsbExample.tdAt 2120 Fixed 10) [] 100 (None, 0)
             HsbExample.s0)))
  = [] ++ batchTimes 5 2120 20.
Proof.
  pose proof (scheduleSubShotgun_records HsbExample.env "n00dles"
                (HsbExample.tdAt 2120 Fixed 10) [] 100 (None, 0)
                HsbExample.s0) as H.
  cbv zeta in H.
  assert (H1 : ~ execMargin HsbExample.env == 0) by discriminate.
  assert (H2 : ~ ramUsage (R HsbExample.env)
                   (batch (HsbExample.tdAt 2120 Fixed 10)) == 0)
    by discriminate.
  destruct (H H1 H2) as (Htimes & _).
  exact Htimes.
Defined.

Lemma assign_keys_same {A : Type} (k : string) (v v0 : A)
  (m : list (string * A)) :
  lookup k m = Some v0 -> map fst (assign k v m) = map fst m.
Proof.
  induction m as [|[k' v'] m IH]; simpl; [discriminate|].
  destruct (String.eqb k' k); simpl; [reflexivity|].
  intros H. rewrite (IH H). reflexivity.
Qed.

Lemma assign_frame (tds : list (string * TargetData)) (target : string)
  (td0 tdX : TargetData) :
  lookup target tds = Some td0 ->
  batch tdX = batch td0 ->
  map fst (assign target tdX tds) = map fst tds
  /\ forall t td,
      lookup t tds = Some td ->
      exists td',
        lookup t (assign target tdX tds) = Some td'
        /\ batch td' = batch td
        /\ (t <> target -> td' = td).
Proof.
  intros Hlook Hbatch. split; [eapply assign_keys_same; exact Hlook|].
  intros t td Ht. destruct (String.eqb_spec t target) as [->|Hne].
  - rewrite HsbTargeterFacts.lookup_assign_same. exists tdX.
    rewrite Hlook in Ht. injection Ht as <-.
    split; [reflexivity|]. split; [exact Hbatch | congruence].
  - rewrite HsbTargeterFacts.lookup_assign_other by exact Hne.
    exists td. auto.
Qed.

Lemma ensureFixed_batch (E : Env) (target : string) (td : TargetData)
  (s : St) :
  batch (snd (fst (ensureFixed E target td s))) = batch td.
Proof.
  unfold ensureFixed.
  destruct (fixedStatus td); destruct (targetFixed (world s) target);
    simpl; try reflexivity.
  destruct (Qgtb _ _); simpl; [reflexivity|].
  destruct (equal _ _); reflexivity.
Qed.

Lemma ensureValidExecTime_batch (E : Env) (fuel : nat) (ns : NS)
  (target : string) (td td' : TargetData) (b : bool) :
  ensureValidExecTime E fuel ns target td = Done (b, td') ->
  batch td' = batch td.
Proof.
  unfold ensureValidExecTime. destruct (inLowSecHole E (now ns)); simpl.
  - intros Hrun. apply validExecTimeLoop_accepts in Hrun.
    destruct Hrun as ((_ & H & _) & _). exact H.
  - intros Hrun. injection Hrun as _ <-. reflexivity.
Qed.

Lemma scheduleFullShotgun_batch (E : Env) (target : string)
  (td : TargetData) (s : St) :
  batch (fst (scheduleFullShotgun E target td s)) = batch td.
Proof. unfold scheduleFullShotgun. apply fullShotgunBatches_trace. Qed.

Lemma scheduleSubShotgun_batch (E : Env) (target : string)
  (td : TargetData) (times : list Q) (maxRam : Q)
  (sbd : option Threads * Q) (s : St) :
  batch (snd (fst (scheduleSubShotgun E target td times maxRam sbd s)))
  = batch td.
Proof.
  unfold scheduleSubShotgun.
  match goal with
  | |- context [subShotgunBatches E ?n target td times s] =>
      pose proof (subShotgunBatches_trace E target n td times s) as Hloop;
      cbv zeta in Hloop;
      destruct (subShotgunBatches E n target td times s) as [[td1 times1] s1]
  end.
  simpl in Hloop. destruct Hloop as (_ & _ & _ & H & _).
  destruct (1 <=? _)%Z; simpl; [|exact H].
  destruct (Qltb _ _); simpl; exact H.
Qed.

Lemma scheduleTarget_frame (E : Env) (fuel : nat) (target : string)
  (l l' : Loop) (s s' : St) :
  scheduleTarget E fuel target l s = Done (l', s') ->
  map fst (targetsData l') = map fst (targetsData l)
  /\ forall t td,
      lookup t (targetsData l) = Some td ->
      exists td',
        lookup t (targetsData l') = Some td'
        /\ batch td' = batch td
        /\ (t <> target -> td' = td).
Proof.
  unfold scheduleTarget.
  destruct (lookup target (targetsData l)) as [td0|] eqn:Hlook;
    [|discriminate].
  destruct (ensureValidExecTime E fuel (world s) target td0)
    as [[valid td1]| |] eqn:Hvalid; simpl; try discriminate.
  apply ensureValidExecTime_batch in Hvalid. rename Hvalid into B01.
  destruct valid; simpl.
  2:{ intros Hrun. injection Hrun as <- <-. simpl.
      apply (assign_frame _ _ td0); assumption. }
  pose proof (ensureFixed_batch E target td1 s) as B12.
  destruct (ensureFixed E target td1 s) as [[ready td2] s2]. simpl in B12.
  destruct ready; simpl.
  2:{ intros Hrun. injection Hrun as <- <-. simpl.
      apply (assign_frame _ _ td0); [assumption | congruence]. }
  destruct (targetFixValid E (world s2) target td2); simpl; try discriminate.
  destruct (optStringEqb (subShotgunTarget l) (Some target)).
  - pose proof (scheduleSubShotgun_batch E target td2
                  (subShotgunBatchExecTimes l) (subShotgunMaxRam l)
                  (subBatchData l) s2) as B23.
    destruct (scheduleSubShotgun E target td2 (subShotgunBatchExecTimes l)
                (subShotgunMaxRam l) (subBatchData l) s2)
      as [[[sbd' times'] td3] s3].
    simpl in B23. intros Hrun. injection Hrun as <- <-. simpl.
    apply (assign_frame _ _ td0); [assumption | congruence].
  - pose proof (scheduleFullShotgun_batch E target td2 s2) as B23.
    destruct (scheduleFullShotgun E target td2 s2) as [td3 s3].
    simpl in B23. intros Hrun. injection Hrun as <- <-. simpl.
    apply (assign_frame _ _ td0); [assumption | congruence].
Qed.

Lemma forTargets_frame (E : Env) (fuel : nat) (targetPriority : list string) :
  forall (l l' : Loop) (s s' : St),
    forTargets E fuel targetPriority l s = Done (l', s') ->
    map fst (targetsData l') = map fst (targetsData l)
    /\ forall t td,
        lookup t (targetsData l) = Some td ->
        exists td',
          lookup t (targetsData l') = Some td'
          /\ batch td' = batch td
          /\ (~ In t targetPriority -> td' = td).
Proof.
  induction targetPriority as [|target rest IH]; intros l l' s s' Hrun;
    simpl in Hrun.
  - injection Hrun as <- <-. split; [reflexivity|].
    intros t td Ht. exists td. auto.
  - destruct (scheduleTarget E fuel target l s) as [[l1 s1]| |] eqn:Hone;
      simpl in Hrun; try discriminate.
    destruct (scheduleTarget_frame _ _ _ _ _ _ _ Hone) as [Hkeys1 Hone'].
    destruct (IH _ _ _ _ Hrun) as [Hkeys2 Hrest].
    split; [congruence|].
    intros t td Ht.
    destruct (Hone' t td Ht) as (td1 & Ht1 & Hb1 & Hsame1).
    destruct (Hrest t td1 Ht1) as (td' & Ht' & Hb' & Hsame').
    exists td'. split; [exact Ht'|]. split; [congruence|].
    intros Hout. simpl in Hout.
    rewrite Hsame' by tauto. apply Hsame1. intros Heq. apply Hout. left.
    symmetry. exact Heq.
Qed.

(** X23.  A turn of the main loop that runs to its end keeps the targets of
    [targetsData] and the batch of each of them: the batch computed when the
    scheduler started is never computed again.  A target that is not on the
    priority list of the turn keeps its whole record. *)
Theorem cycle_keeps_batches (E : Env) (fuel : nat) (l l' : Loop)
  (s s' : St) :
  cycle E fuel l s = Done (l', s') ->
  map fst (targetsData l') = map fst (targetsData l)
  /\ (forall t td,
         lookup t (targetsData l) = Some td ->
         exists td',
           lookup t (targetsData l') = Some td' /\ batch td' = batch td)
  /\ (forall targetPriority overflow t,
         getTargetPriority E (world s) (targetsData l)
         = Done (targetPriority, overflow) ->
         ~ In t targetPriority ->
         lookup t (targetsData l') = lookup t (targetsData l)).
Proof.
  unfold cycle, newCycle.
  destruct (getTargetPriority E (world s) (targetsData l))
    as [[prio [newTarget maxRam]]| |] eqn:Hprio; simpl; try discriminate.
  intros Hrun.
  assert (Hfor : exists l1,
             targetsData l1 = targetsData l
             /\ forTargets E fuel prio l1 (goToNextSecHole E s) = Done (l', s')).
  { destruct (negb _) in Hrun; simpl in Hrun; eexists; split;
      try exact Hrun; reflexivity. }
  destruct Hfor as (l1 & Hsame & Hfor).
  destruct (forTargets_frame _ _ _ _ _ _ _ Hfor) as [Hkeys Hframe].
  rewrite Hsame in Hkeys, Hframe.
  split; [exact Hkeys|]. split.
  - intros t td Ht. destruct (Hframe t td Ht) as (td' & Ht' & Hb & _).
    exists td'. auto.
  - intros prio' overflow t Heq Hout. injection Heq as <- _.
    destruct (lookup t (targetsData l)) as [td|] eqn:Ht.
    + destruct (Hframe t td Ht) as (td' & Ht' & _ & Hsame').
      rewrite Ht', (Hsame' Hout). reflexivity.
    + destruct (lookup t (targetsData l')) as [td'|] eqn:Ht'; [|reflexivity].
      apply lookup_in_keys in Ht'. rewrite Hkeys in Ht'.
      apply HsbTargeterFacts.lookup_of_key in Ht'. destruct Ht' as [v Hv].
      congruence.
Qed.

Lemma cycle_keeps_batches_witness :
  exists l' s',
    cycle HsbExample.env 3
      (mkLoop (getTargetsData HsbExample.env HsbExample.ns0) None [] 0
         (None, 0))
      HsbExample.s0
    = Done (l', s')
    /\ map fst (targetsData l') = ["joesguns"; "foodnstuff"; "n00dles"]%string
    /\ lookup "joesguns" (targetsData l')
       = lookup "joesguns" (getTargetsData HsbExample.env HsbExample.ns0).
Proof.
  destruct (cycle HsbExample.env 3
              (mkLoop (getTargetsData HsbExample.env HsbExample.ns0) None []
                 0 (None, 0))
              HsbExample.s0) as [[l' s']| |] eqn:Hrun;
    [|vm_compute in Hrun; discriminate | vm_compute in Hrun; discriminate].
  exists l', s'. split; [reflexivity|].
  destruct (cycle_keeps_batches _ _ _ _ _ _ Hrun) as (Hkeys & _ & Hout).
  split; [exact Hkeys|].
  apply (Hout ["n00dles"; "foodnstuff"]%string
           (Some "foodnstuff"%string,
            budgetAfter HsbExample.env HsbExample.ns0
              (getTargetsData HsbExample.env HsbExample.ns0)
              ["n00dles"%string]
              (getAvailableHsbRam HsbExample.env HsbExample.ns0))).
  - reflexivity.
  - simpl. intros [H|[H|[]]]; discriminate.
Defined.

(** X24.  When [getTargetPriority] names the sub shotgun target that is
    already the current one (or none, as before), the head of the turn keeps
    the list of execution times and the remainder batch, and only takes the
    new ceiling. *)
Theorem newCycle_same_target_keeps (E : Env) (l : Loop) (s : St)
  (targetPriority : list string) (maxRam : Q) :
  getTargetPriority E (world s) (targetsData l)
  = Done (targetPriority, (subShotgunTarget l, maxRam)) ->
  newCycle E l s
  = Done
      (targetPriority,
       mkLoop (targetsData l) (subShotgunTarget l)
         (subShotgunBatchExecTimes l) maxRam (subBatchData l)).
Proof.
  intros Hprio. unfold newCycle. rewrite Hprio. simpl.
  assert (Hsame : optStringEqb (subShotgunTarget l) (subShotgunTarget l) = true)
    by (apply HsbTargeterFacts.optStringEqb_eq; reflexivity).
  rewrite Hsame. reflexivity.
Qed.

Lemma newCycle_same_target_keeps_witness :
  exists maxRam,
    newCycle HsbExample.env
      (mkLoop (getTargetsData HsbExample.env HsbExample.ns0)
         (Some "foodnstuff"%string) [4000; 4020] 0
         (Some (mkThreads 3 0 0), 5000))
      HsbExample.s0
    = Done
        (["n00dles"; "foodnstuff"]%string,
         mkLoop (getTargetsData HsbExample.env HsbExample.ns0)
           (Some "foodnstuff"%string) [4000; 4020] maxRam
           (Some (mkThreads 3 0 0), 5000)).
Proof.
  eexists.
  apply (newCycle_same_target_keeps HsbExample.env
           (mkLoop (getTargetsData HsbExample.env HsbExample.ns0)
              (Some "foodnstuff"%string) [4000; 4020] 0
              (Some (mkThreads 3 0 0), 5000))
           HsbExample.s0).
  reflexivity.
Defined.

(** X25.  [multiServerHSb] and [main] never return: however many turns the
    main loop is given, it either is still running or has thrown. *)
Theorem main_never_returns (E : Env) (turns fuel : nat) (s : St)
  (x : Loop * St) :
  main E turns fuel s <> Done x /\ multiServerHSb E turns fuel s <> Done x.
Proof.
  assert (Hcycles : forall n l s0, cycles E n fuel l s0 <> Done x).
  { induction n as [|n IH]; intros l s0; simpl; [discriminate|].
    destruct (cycle E fuel l s0) as [[l' s']| |]; simpl;
      [apply IH | discriminate | discriminate]. }
  split; apply Hcycles.
Qed.

Lemma assign_lookup_same {A : Type} (k : string) (v : A)
  (m : list (string * A)) :
  lookup k m = Some v -> assign k v m = m.
Proof.
  induction m as [|[k' v'] m IH]; simpl; [discriminate|].
  destruct (String.eqb k' k) eqn:Ek.
  - intros H. injection H as ->. reflexivity.
  - intros H. rewrite (IH H). reflexivity.
Qed.

Lemma scheduleTarget_outside_hole (E : Env) (fuel : nat) (target : string)
  (l : Loop) (s : St) :
  inLowSecHole E (now (world s)) = false ->
  In target (map fst (targetsData l)) ->
  scheduleTarget E fuel target l s = Done (l, s).
Proof.
  intros Hout Hkey.
  destruct (HsbTargeterFacts.lookup_of_key target (targetsData l) Hkey)
    as [td Htd].
  unfold scheduleTarget, ensureValidExecTime. rewrite Htd, Hout. simpl.
  unfold withTargetData. rewrite (assign_lookup_same _ _ _ Htd).
  destruct l. reflexivity.
Qed.

Lemma forTargets_outside_hole (E : Env) (fuel : nat)
  (targetPriority : list string) (l : Loop) (s : St) :
  inLowSecHole E (now (world s)) = false ->
  (forall t, In t targetPriority -> In t (map fst (targetsData l))) ->
  forTargets E fuel targetPriority l s = Done (l, s).
Proof.
  intros Hout. induction targetPriority as [|t rest IH]; intros Hkeys; simpl;
    [reflexivity|].
  rewrite (scheduleTarget_outside_hole E fuel t l s Hout)
    by (apply Hkeys; left; reflexivity).
  simpl. apply IH. intros x Hx. apply Hkeys. right. exact Hx.
Qed.

Lemma getTargetPriority_keys (E : Env) (ns : NS)
  (tds : list (string * TargetData)) (targetPriority : list string)
  (overflow : option string * Q) :
  getTargetPriority E ns tds = Done (targetPriority, overflow) ->
  forall t, In t targetPriority -> In t (map fst tds).
Proof.
  unfold getTargetPriority. intros Hrun t Ht.
  assert (Hkeys : forall x,
             In x (map fst (sortInfo (targetInfoOf E ns tds))) ->
             In x (map fst tds)).
  { intros x Hx. rewrite <- (HsbTargeterFacts.targetInfoOf_keys E ns tds).
    eapply Permutation_in; [|exact Hx].
    apply Permutation_map. apply HsbTargeterFacts.sortInfo_perm. }
  apply Hkeys.
  assert (Hkept : In t (retained ns (map fst (sortInfo (targetInfoOf E ns tds))))).
  { destruct (HsbTargeterFacts.walkTargets_spec E ns tds
                (map fst (sortInfo (targetInfoOf E ns tds))) []
                (getAvailableHsbRam E ns) Hkeys)
      as [(pre & t0 & post & Hret & Hwalk & _) | [Hwalk _]];
      rewrite Hwalk in Hrun; injection Hrun as <- _.
    - rewrite Hret. simpl in Ht. apply in_app_or in Ht.
      apply in_or_app. destruct Ht as [H|[H|[]]]; [left; exact H|].
      right. left. exact H.
    - exact Ht. }
  unfold retained in Hkept. apply filter_In in Hkept. tauto.
Qed.

(** X26.  When the scheduler wakes up outside a low security hole (the wait
    for the hole overshot), the turn of the main loop schedules nothing:
    every target of the priority list is skipped, no batch is dispatched and
    no record changes; only the reset and the ceiling of the head of the turn
    remain. *)
Theorem cycle_outside_hole_skips (E : Env) (fuel : nat) (l l1 : Loop)
  (s : St) (targetPriority : list string) :
  newCycle E l s = Done (targetPriority, l1) ->
  inLowSecHole E (now (world (goToNextSecHole E s))) = false ->
  cycle E fuel l s = Done (l1, goToNextSecHole E s)
  /\ targetsData l1 = targetsData l
  /\ trace (goToNextSecHole E s) = trace s ++ [EvGoToNextSecHole].
Proof.
  intros Hnew Hout.
  assert (Hdata : targetsData l1 = targetsData l).
  { revert Hnew. unfold newCycle.
    destruct (getTargetPriority E (world s) (targetsData l))
      as [[prio [newTarget maxRam]]| |]; simpl; try discriminate.
    destruct (negb _); intros H; injection H as _ <-; reflexivity. }
  assert (Hkeys : forall t,
             In t targetPriority -> In t (map fst (targetsData l1))).
  { rewrite Hdata. revert Hnew. unfold newCycle.
    destruct (getTargetPriority E (world s) (targetsData l))
      as [[prio ov]| |] eqn:Hprio; simpl; try discriminate.
    destruct ov as [newTarget maxRam].
    intros H t Ht.
    assert (Hsame : prio = targetPriority)
      by (destruct (negb _) in H; injection H as -> _; reflexivity).
    subst prio. eapply getTargetPriority_keys; eassumption. }
  split; [|split; [exact Hdata | reflexivity]].
  unfold cycle. rewrite Hnew. simpl.
  apply forTargets_outside_hole; assumption.
Qed.

Lemma cycle_outside_hole_skips_witness :
  exists l1,
    cycle HsbExample.env 3
      (mkLoop (getTargetsData HsbExample.env HsbExample2.nsLate) None [] 0
         (None, 0))
      (mkSt HsbExample2.nsLate [])
    = Done (l1, mkSt HsbExample2.nsLate [EvGoToNextSecHole])
    /\ targetsData l1 = getTargetsData HsbExample.env HsbExample2.nsLate.
Proof.
  eexists.
  destruct (cycle_outside_hole_skips HsbExample.env 3
              (mkLoop (getTargetsData HsbExample.env HsbExample2.nsLate) None
                 [] 0 (None, 0))
              _ (mkSt HsbExample2.nsLate []) _ eq_refl eq_refl)
    as (Hrun & Hdata & _).
  split; [exact Hrun | exact Hdata].
Defined.

End HsbTargeterExtra.
